(** * Slice pipeline of the Figma-to-Klaviyo exporter

    A shallow embedding of the backend ([server.js]) and of the slicing
    helpers of the Figma plugin, with the properties of the geometry,
    compression and credential-routing code.

    Numbers.  JavaScript numbers that the code rounds with [Math.round]
    before use are rationals ([Q]); everything computed after the rounding
    is an integer ([Z]).  [NaN] and the infinities have no counterpart: a
    request field that is not a finite number is outside the model.
    Products such as [frameHeight * 0.03] and the [val * scale] of [px]
    are exact rationals, where the source rounds the product to a double
    before [Math.round]; the two part only when the exact product is a
    half-integer and the double falls short of it (50 * 1.13).

    Request fields.  The logical width and height of a request are
    integers, as the plugin sends them; a field the code reads as text
    ([batchName], [frameName], [accountId], the [url], [label] and [alt]
    of an entry) is a string or absent, and a coordinate of a manual entry
    is a finite number or absent.  The properties below are stated for
    such requests.

    Strings.  A string is a sequence of code units below 256, one [ascii]
    per unit; upper and lower case are those of the ASCII letters. *)

From Stdlib Require Import ZArith QArith Qround List String Ascii Bool Lia.
From Stdlib Require Import DecimalString.
From Stdlib.Strings Require Import Byte.
From Stdlib Require Import Sorted.
From Stdlib Require Import Lqa.
Import ListNotations.

Local Open Scope Z_scope.

(** ** JavaScript primitives *)

Module Js.

(** [Math.round]: nearest integer, ties towards plus infinity. *)
Definition Math_round (q : Q) : Z := Qfloor (q + (1 # 2)).

(** [x || d] on a numeric field that may be absent ([undefined]): the
    absent field and [0] both give [d]. *)
Definition num_or (x : option Q) (d : Q) : Q :=
  match x with
  | Some q => if Qeq_bool q 0 then d else q
  | None => d
  end.

(** [String(x || '')] on a string field that may be absent. *)
Definition str_or_empty (x : option string) : string :=
  match x with
  | Some s => s
  | None => EmptyString
  end.

(** Truthiness of an optional string: present and not empty. *)
Definition truthy (x : option string) : bool :=
  match x with
  | Some (String _ _) => true
  | _ => false
  end.

Definition code (c : ascii) : N := N_of_ascii c.

Definition in_range (lo hi : N) (c : ascii) : bool :=
  (N.leb lo (code c) && N.leb (code c) hi)%bool.

Definition is_lower (c : ascii) : bool := in_range 97 122 c.
Definition is_upper (c : ascii) : bool := in_range 65 90 c.
Definition is_digit (c : ascii) : bool := in_range 48 57 c.

(** White space and line terminators of ECMAScript below 256. *)
Definition is_space (c : ascii) : bool :=
  (in_range 9 13 c || N.eqb (code c) 32 || N.eqb (code c) 160)%bool.

(** [toLowerCase] on one code unit: the ASCII capitals and the Latin-1
    capitals (all of 192..222 but the multiplication sign 215). *)
Definition lower_char (c : ascii) : ascii :=
  if (is_upper c || (in_range 192 222 c && negb (N.eqb (code c) 215)))%bool
  then ascii_of_N (code c + 32)
  else c.

(** [toUpperCase] on one ASCII code unit.  The only caller applies it to a
    normalized account identifier, which is ASCII. *)
Definition upper_char (c : ascii) : ascii :=
  if is_lower c then ascii_of_N (code c - 32) else c.

Fixpoint map_string (f : ascii -> ascii) (s : string) : string :=
  match s with
  | EmptyString => EmptyString
  | String c r => String (f c) (map_string f r)
  end.

Fixpoint filter_string (p : ascii -> bool) (s : string) : string :=
  match s with
  | EmptyString => EmptyString
  | String c r => if p c then String c (filter_string p r) else filter_string p r
  end.

Fixpoint forall_string (p : ascii -> bool) (s : string) : bool :=
  match s with
  | EmptyString => true
  | String c r => (p c && forall_string p r)%bool
  end.

Definition toLowerCase : string -> string := map_string lower_char.
Definition toUpperCase : string -> string := map_string upper_char.

Fixpoint trimStart (s : string) : string :=
  match s with
  | String c r => if is_space c then trimStart r else s
  | EmptyString => EmptyString
  end.

(** [trimEnd]: a unit is dropped when it is white space and everything
    after it has been dropped. *)
Fixpoint trimEnd (s : string) : string :=
  match s with
  | EmptyString => EmptyString
  | String c r =>
      match trimEnd r with
      | EmptyString => if is_space c then EmptyString else String c EmptyString
      | r' => String c r'
      end
  end.

Definition trim (s : string) : string := trimEnd (trimStart s).

(** [s.split(sep)] for a one-unit separator: never empty, the empty
    string gives one empty piece. *)
Fixpoint split (sep : ascii) (s : string) : list string :=
  match s with
  | EmptyString => [EmptyString]
  | String c r =>
      if Ascii.eqb c sep then EmptyString :: split sep r
      else match split sep r with
           | p :: ps => String c p :: ps
           | [] => [String c EmptyString]
           end
  end.

(** [Array.from(new Set(l))]: first occurrences, in insertion order. *)
Fixpoint dedupe_from (seen l : list string) : list string :=
  match l with
  | [] => []
  | s :: r =>
      if existsb (String.eqb s) seen then dedupe_from seen r
      else s :: dedupe_from (s :: seen) r
  end.

Definition dedupe (l : list string) : list string := dedupe_from [] l.

(** [/^https?:\/\//i.test(s)] *)
Definition has_http_scheme (s : string) : bool :=
  let l := toLowerCase s in
  (String.prefix "http://" l || String.prefix "https://" l)%bool.

Definition dquote : string := String (ascii_of_N 34) EmptyString.

End Js.

(** ** Effects

    The backend talks to the image codec and to the upload API.  A
    computation yields an outcome and the trace of the external calls it
    made, in order.  [Diverged] stands for a loop that never exits. *)

Inductive Event : Type :=
| EvMetadata
| EvExtract (left top width height : Z)
| EvPng
| EvJpeg (quality : Z)
| EvUpload (name : string).

Inductive Outcome (A : Type) : Type :=
| Ok (a : A)
| Throw (message : string)
| Diverged.

Arguments Ok {A} a.
Arguments Throw {A} message.
Arguments Diverged {A}.

Definition M (A : Type) : Type := (Outcome A * list Event)%type.

Definition ret {A} (a : A) : M A := (Ok a, []).

Definition throw {A} (message : string) : M A := (Throw message, []).

Definition diverge {A} : M A := (Diverged, []).

Definition bind {A B} (m : M A) (f : A -> M B) : M B :=
  match m with
  | (Ok a, t1) => let (r, t2) := f a in (r, t1 ++ t2)
  | (Throw e, t1) => (Throw e, t1)
  | (Diverged, t1) => (Diverged, t1)
  end.

(** An external call: it is recorded, then it returns or throws. *)
Definition call {A} (ev : Event) (r : string + A) : M A :=
  match r with
  | inr a => (Ok a, [ev])
  | inl e => (Throw e, [ev])
  end.

Declare Scope effect_scope.
Delimit Scope effect_scope with effect.
Notation "x <- m ;; k" := (bind m (fun x => k))
  (at level 61, m at next level, right associativity) : effect_scope.
Notation "m ;;; k" := (bind m (fun _ => k))
  (at level 61, right associativity) : effect_scope.

Definition outcome {A} (m : M A) : Outcome A := fst m.
Definition trace {A} (m : M A) : list Event := snd m.

(** Events that belong to the processing of a slice. *)
Definition is_slice_event (ev : Event) : bool :=
  match ev with
  | EvMetadata => false
  | _ => true
  end.

Definition jpeg_quality_of (ev : Event) : option Z :=
  match ev with
  | EvJpeg q => Some q
  | _ => None
  end.

(** The qualities of the lossy encodes of a trace, in order. *)
Fixpoint jpeg_qualities (t : list Event) : list Z :=
  match t with
  | [] => []
  | ev :: r =>
      match jpeg_quality_of ev with
      | Some q => q :: jpeg_qualities r
      | None => jpeg_qualities r
      end
  end.

(** ** The backend, [server.js] *)

Module Server.
Import Js.

(** [process.env] *)
Definition Env : Type := string -> option string.

Definition extractErrorText (detail error : option string) (fallback : string) : string :=
  match detail, error with
  | Some (String c d), _ => String c d
  | _, Some (String c e) => String c e
  | _, _ => fallback
  end.

Definition safeUrl (url : option string) : string :=
  if has_http_scheme (str_or_empty url) then str_or_empty url else EmptyString.

Definition clamp (n min max : Z) : Z := Z.max min (Z.min max n).

(** [Math.max(0, Math.round(Number(val || 0) * scale))], the product
    exact. *)
Definition px (val : Z) (scale : Q) : Z :=
  Z.max 0 (Math_round (inject_Z val * scale)).

Definition bytesToKb (bytes : Z) : Q :=
  inject_Z (Math_round ((inject_Z bytes / 1024) * 100)) / 100.

(** *** Credential routing *)

Definition account_char (c : ascii) : bool :=
  (is_lower c || is_digit c || Ascii.eqb c "_" || Ascii.eqb c "-")%bool.

Definition normalizeAccountId (raw : option string) : string :=
  let val := toLowerCase (trim (str_or_empty raw)) in
  filter_string account_char val.

Definition nonempty (s : string) : bool :=
  match s with
  | EmptyString => false
  | String _ _ => true
  end.

Definition readConfiguredAccounts (env : Env) : list string :=
  let configured :=
    filter nonempty
      (map (fun v => normalizeAccountId (Some v))
         (split "," (str_or_empty (env "KLAVIYO_ACCOUNTS"%string)))) in
  dedupe configured.

Definition env_key_char (c : ascii) : ascii :=
  if (is_upper c || is_digit c)%bool then c else "_"%char.

Definition accountEnvKey (accountId : string) : string :=
  ("KLAVIYO_API_KEY_" ++ map_string env_key_char (toUpperCase accountId))%string.

Inductive Resolved : Type :=
| ResolvedOk (accountId apiKey source : string)
| ResolvedErr (error : string).

Definition missing_key_error (accountId envName : string) : string :=
  ("No API key configured for accountId " ++ dquote ++ accountId ++ dquote
   ++ ". Expected env: " ++ envName)%string.

Definition no_key_error : string :=
  "No Klaviyo API key found. Configure KLAVIYO_API_KEY or KLAVIYO_API_KEY_<ACCOUNT_ID>."%string.

(** [a || b] on two optional strings. *)
Definition or_else (a b : option string) : option string :=
  if truthy a then a else b.

Definition resolveApiKey (env : Env) (accountIdRaw : option string) : Resolved :=
  let accountId := normalizeAccountId accountIdRaw in
  let configured := readConfiguredAccounts env in
  if nonempty accountId then
    let envName := accountEnvKey accountId in
    match env envName with
    | Some (String c k) => ResolvedOk accountId (String c k) envName
    | _ => ResolvedErr (missing_key_error accountId envName)
    end
  else
    match or_else (env "KLAVIYO_API_KEY"%string) (env "KLAVIYO_PRIVATE_KEY"%string) with
    | Some (String c k) =>
        ResolvedOk "default" (String c k)
          (if truthy (env "KLAVIYO_API_KEY"%string)
           then "KLAVIYO_API_KEY" else "KLAVIYO_PRIVATE_KEY")
    | _ =>
        match configured with
        | first :: _ =>
            let envName := accountEnvKey first in
            match env envName with
            | Some (String c k) => ResolvedOk first (String c k) envName
            | _ => ResolvedErr no_key_error
            end
        | [] => ResolvedErr no_key_error
        end
    end.

(** [GET /api/accounts]: the account names offered to the caller. *)
Definition api_accounts (env : Env) : list string :=
  let list := readConfiguredAccounts env in
  let fallbackExists :=
    truthy (or_else (env "KLAVIYO_API_KEY"%string) (env "KLAVIYO_PRIVATE_KEY"%string)) in
  let accounts := if fallbackExists then "default"%string :: list else list in
  dedupe accounts.

(** *** Slices *)

Record Rect : Type := mkRect {
  x : Z;
  y : Z;
  width : Z;
  height : Z;
  url : string;
  label : string;
  alt : string
}.

(** [maxSliceHeight || 1200] *)
Definition q_or (q d : Q) : Q := if Qeq_bool q 0 then d else q.

(** The [while (y < bodyBottom)] loop of [buildAutoVerticalSlices]; [None]
    when the fuel does not reach the exit. *)
Fixpoint tile_loop (fuel : nat) (logicalWidth bodyBottom safeMax y : Z)
  : option (list Rect) :=
  if y <? bodyBottom then
    match fuel with
    | O => None
    | S fuel' =>
        let h := Z.min safeMax (bodyBottom - y) in
        option_map
          (cons (mkRect 0 y logicalWidth h EmptyString EmptyString EmptyString))
          (tile_loop fuel' logicalWidth bodyBottom safeMax (y + h))
    end
  else Some [].

Definition buildAutoVerticalSlices
    (logicalWidth bodyTop bodyBottom : Z) (maxSliceHeight : Q) : option (list Rect) :=
  let safeMax := Z.max 200 (Math_round (q_or maxSliceHeight 1200)) in
  tile_loop (Z.to_nat (bodyBottom - bodyTop)) logicalWidth bodyBottom safeMax bodyTop.

(** An entry of [manualSlices] as the request carries it; an absent
    coordinate reads as [0]. *)
Record RawRect : Type := mkRawRect {
  raw_x : option Q;
  raw_y : option Q;
  raw_width : option Q;
  raw_height : option Q
}.

Record ManualSlice : Type := mkManualSlice {
  rect : option RawRect;
  ms_url : option string;
  ms_label : option string;
  ms_alt : option string
}.

(** The body of the [for (const s of list)] loop: [None] is [continue]. *)
Definition normalizeManualRect
    (logicalWidth logicalHeight bodyTop bodyBottom : Z) (s : option ManualSlice)
  : option Rect :=
  match s with
  | None => None
  | Some s =>
      match rect s with
      | None => None
      | Some r =>
          let x := clamp (Math_round (num_or (raw_x r) 0)) 0 (Z.max 0 (logicalWidth - 1)) in
          let y := clamp (Math_round (num_or (raw_y r) 0)) bodyTop
                     (Z.max bodyTop (bodyBottom - 1)) in
          let maxW := logicalWidth - x in
          let maxH := bodyBottom - y in
          let w := clamp (Math_round (num_or (raw_width r) 0)) 1 (Z.max 1 maxW) in
          let h := clamp (Math_round (num_or (raw_height r) 0)) 1 (Z.max 1 maxH) in
          if ((w <? 2) || (h <? 2))%bool then None
          else Some (mkRect x y w h (safeUrl (ms_url s))
                       (str_or_empty (ms_label s)) (str_or_empty (ms_alt s)))
      end
  end.

Fixpoint normalizeManualRectSlices
    (logicalWidth logicalHeight bodyTop bodyBottom : Z)
    (manualSlices : list (option ManualSlice)) : list Rect :=
  match manualSlices with
  | [] => []
  | s :: rest =>
      match normalizeManualRect logicalWidth logicalHeight bodyTop bodyBottom s with
      | Some r =>
          r :: normalizeManualRectSlices logicalWidth logicalHeight bodyTop bodyBottom rest
      | None =>
          normalizeManualRectSlices logicalWidth logicalHeight bodyTop bodyBottom rest
      end
  end.

Record ExtractRect : Type := mkExtractRect {
  left : Z;
  top : Z;
  ex_width : Z;
  ex_height : Z
}.

Definition clampExtractRect (rect : Rect) (pixelRatio : Q) (sourceWidth sourceHeight : Z)
  : ExtractRect :=
  let left := clamp (px (x rect) pixelRatio) 0 (Z.max 0 (sourceWidth - 1)) in
  let top := clamp (px (y rect) pixelRatio) 0 (Z.max 0 (sourceHeight - 1)) in
  let desiredW := Z.max 1 (px (width rect) pixelRatio) in
  let desiredH := Z.max 1 (px (height rect) pixelRatio) in
  let width := clamp desiredW 1 (Z.max 1 (sourceWidth - left)) in
  let height := clamp desiredH 1 (Z.max 1 (sourceHeight - top)) in
  mkExtractRect left top width height.

(** *** The codec, the upload API and the configuration *)

Definition Buffer : Type := list byte.

Definition Buffer_length (b : Buffer) : Z := Z.of_nat (List.length b).

(** What [fetch] and [response.json()] give back; a body that does not
    parse leaves the three fields absent. *)
Record FetchResponse : Type := mkFetchResponse {
  resp_ok : bool;
  resp_status : Z;
  errors_0_detail : option string;
  resp_error : option string;
  image_url : option string
}.

(** The external collaborators.  A result on the left is the message of
    the error the call throws. *)
Record World : Type := mkWorld {
  Buffer_from_base64 : string -> Buffer;
  Buffer_toString_base64 : Buffer -> string;
  sharp_metadata : Buffer -> string + (option Z * option Z);
  sharp_extract : Buffer -> ExtractRect -> string + (Buffer * bool);
  sharp_png : Buffer -> string + Buffer;
  sharp_jpeg : Buffer -> Z -> string + Buffer;
  fetch_images : string -> string -> string -> string -> string + FetchResponse
}.

(** The module constants read from the environment at start-up (by
    default 80, 60 and 250).  The qualities are integers, the only values
    the codec accepts. *)
Record Config : Type := mkConfig {
  defaultJpegQuality : Z;
  minJpegQuality : Z;
  targetSliceKb : Q
}.

Definition string_of_Z (z : Z) : string := NilZero.string_of_int (Z.to_int z).
Definition string_of_nat (n : nat) : string := NilZero.string_of_uint (Nat.to_uint n).

Section Pipeline.

Variable w : World.
Variable cfg : Config.

Local Open Scope effect_scope.

Definition uploadImageToKlaviyo (apiKey name base64Image mimeType : string) : M string :=
  response <- call (EvUpload name) (fetch_images w apiKey name base64Image mimeType) ;;
  if negb (resp_ok response) then
    throw ("Image upload failed: "
           ++ extractErrorText (errors_0_detail response) (resp_error response)
                ("HTTP " ++ string_of_Z (resp_status response)))%string
  else
    match image_url response with
    | Some (String c u) => ret (String c u)
    | _ => throw "Image uploaded but image_url missing from Klaviyo response"
    end.

Record Compressed : Type := mkCompressed {
  buf : Buffer;
  mime : string;
  quality : option Z;
  originalKb : Q;
  compressedKb : Q
}.

(** [best.length > targetBytes && quality > minJpegQuality] *)
Definition keep_searching (targetBytes : Q) (quality : Z) (best : Buffer) : bool :=
  (negb (Qle_bool (inject_Z (Buffer_length best)) targetBytes)
   && (minJpegQuality cfg <? quality))%bool.

(** The [while] loop of [compressSlice]. *)
Fixpoint quality_loop (fuel : nat) (sliceBuffer : Buffer) (targetBytes : Q)
    (quality : Z) (best : Buffer) : M (Z * Buffer) :=
  if keep_searching targetBytes quality best then
    match fuel with
    | O => diverge
    | S fuel' =>
        let quality := quality - 5 in
        best <- call (EvJpeg quality) (sharp_jpeg w sliceBuffer quality) ;;
        quality_loop fuel' sliceBuffer targetBytes quality best
    end
  else ret (quality, best).

Definition compressSlice (sliceBuffer : Buffer) (hasAlpha : bool) : M Compressed :=
  let originalBytes := Buffer_length sliceBuffer in
  if hasAlpha then
    png <- call EvPng (sharp_png w sliceBuffer) ;;
    ret (mkCompressed png "image/png" None
           (bytesToKb originalBytes) (bytesToKb (Buffer_length png)))
  else
    let quality := defaultJpegQuality cfg in
    best <- call (EvJpeg quality) (sharp_jpeg w sliceBuffer quality) ;;
    let targetBytes := (targetSliceKb cfg * 1024)%Q in
    qb <- quality_loop (Z.to_nat (quality - minJpegQuality cfg))
            sliceBuffer targetBytes quality best ;;
    ret (mkCompressed (snd qb) "image/jpeg" (Some (fst qb))
           (bytesToKb originalBytes) (bytesToKb (Buffer_length (snd qb)))).

(** A slice after the loop of [buildAndUploadSlices] has set its fields. *)
Record SliceResult : Type := mkSliceResult {
  slice : Rect;
  imageUrl : string;
  mimeType : string;
  jpegQuality : option Z;
  slice_originalKb : Q;
  slice_compressedKb : Q
}.

(** The argument of [buildAndUploadSlices].  The logical size is the
    rounded size of the frame, as the plugin sends it. *)
Record BuildArgs : Type := mkBuildArgs {
  apiKey : string;
  batchName : string;
  sourceBase64 : string;
  logicalWidth : Z;
  logicalHeight : Z;
  pixelRatio : Q;
  headerHeight : Q;
  footerHeight : Q;
  maxSliceHeight : Q;
  manualSlices : list (option ManualSlice)
}.

Definition bodyTop_of (a : BuildArgs) : Z :=
  clamp (Math_round (q_or (headerHeight a) 0)) 0 (logicalHeight a).

Definition bodyBottom_of (a : BuildArgs) : Z :=
  logicalHeight a - clamp (Math_round (q_or (footerHeight a) 0)) 0 (logicalHeight a).

(** One pass of the [for (let i ...)] loop. *)
Definition process_slice (a : BuildArgs) (sourceBuffer : Buffer)
    (sourceWidth sourceHeight : Z) (i : nat) (s : Rect) : M SliceResult :=
  let extractRect := clampExtractRect s (pixelRatio a) sourceWidth sourceHeight in
  extracted <- call (EvExtract (left extractRect) (top extractRect)
                       (ex_width extractRect) (ex_height extractRect))
                 (sharp_extract w sourceBuffer extractRect) ;;
  compressed <- compressSlice (fst extracted) (snd extracted) ;;
  imageUrl <- uploadImageToKlaviyo (apiKey a)
                (batchName a ++ "-slice-" ++ string_of_nat (i + 1))%string
                (Buffer_toString_base64 w (buf compressed)) (mime compressed) ;;
  ret (mkSliceResult s imageUrl (mime compressed) (quality compressed)
         (originalKb compressed) (compressedKb compressed)).

Fixpoint process_slices (a : BuildArgs) (sourceBuffer : Buffer)
    (sourceWidth sourceHeight : Z) (i : nat) (slices : list Rect)
  : M (list SliceResult) :=
  match slices with
  | [] => ret []
  | s :: rest =>
      r <- process_slice a sourceBuffer sourceWidth sourceHeight i s ;;
      rs <- process_slices a sourceBuffer sourceWidth sourceHeight (S i) rest ;;
      ret (r :: rs)
  end.

Record Built : Type := mkBuilt {
  slices : list SliceResult;
  bodyTop : Z;
  bodyBottom : Z
}.

Definition dim (d : option Z) : Z :=
  match d with
  | Some n => n
  | None => 0
  end.

Definition no_valid_manual_error : string :=
  "Manual slices provided but no valid rectangles were generated."%string.

Definition empty_body_error : string :=
  "Invalid header/footer crop. Body region is empty."%string.

(** The choice between the caller's rectangles and the tiling. *)
Definition choose_slices (a : BuildArgs) (bodyTop bodyBottom : Z) : M (list Rect) :=
  match manualSlices a with
  | _ :: _ =>
      let slices := normalizeManualRectSlices (logicalWidth a) (logicalHeight a)
                      bodyTop bodyBottom (manualSlices a) in
      match slices with
      | [] => throw no_valid_manual_error
      | _ => ret slices
      end
  | [] =>
      match buildAutoVerticalSlices (logicalWidth a) bodyTop bodyBottom
              (maxSliceHeight a) with
      | Some slices => ret slices
      | None => diverge
      end
  end.

Definition buildAndUploadSlices (a : BuildArgs) : M Built :=
  let sourceBuffer := Buffer_from_base64 w (sourceBase64 a) in
  sourceMeta <- call EvMetadata (sharp_metadata w sourceBuffer) ;;
  let sourceWidth := dim (fst sourceMeta) in
  let sourceHeight := dim (snd sourceMeta) in
  if ((sourceWidth =? 0) || (sourceHeight =? 0))%bool then
    throw "Could not read exported image dimensions."
  else
    let bodyTop := bodyTop_of a in
    let bodyBottom := bodyBottom_of a in
    if bodyBottom <=? bodyTop then throw empty_body_error
    else
      slices <- choose_slices a bodyTop bodyBottom ;;
      done <- process_slices a sourceBuffer sourceWidth sourceHeight 0 slices ;;
      ret (mkBuilt done bodyTop bodyBottom).

(** *** The [/api/push] handler *)

Record PushRequest : Type := mkPushRequest {
  req_batchName : option string;
  req_imageBase64 : option string;
  req_logicalWidth : option Z;
  req_logicalHeight : option Z;
  req_pixelRatio : option Q;
  req_headerHeight : option Q;
  req_footerHeight : option Q;
  req_maxSliceHeight : option Q;
  req_manualSlices : option (list (option ManualSlice));
  req_frameName : option string;
  req_accountId : option string
}.

Record SliceJson : Type := mkSliceJson {
  index : nat;
  result : SliceResult
}.

Record PushBody : Type := mkPushBody {
  body_accountId : string;
  body_batchName : string;
  body_frameName : option string;
  sliceCount : nat;
  manualMode : bool;
  body_targetSliceKb : Q;
  body_slices : list SliceJson
}.

Inductive HttpResponse : Type :=
| Json200 (body : PushBody)
| JsonError (status : Z) (error : string).

(** [built.slices.map((s, idx) => ...)] *)
Fixpoint number_slices (idx : nat) (l : list SliceResult) : list SliceJson :=
  match l with
  | [] => []
  | s :: r => mkSliceJson (idx + 1) s :: number_slices (S idx) r
  end.

(** [String(error?.message || error)] for a thrown [Error]. *)
Definition error_text (message : string) : string :=
  match message with
  | EmptyString => "Error"%string
  | _ => message
  end.

(** [try { ... } catch (error) { ... }] *)
Definition try_catch {A} (m : M A) (handler : string -> M A) : M A :=
  match m with
  | (Throw e, t1) => let (r, t2) := handler e in (r, t1 ++ t2)
  | _ => m
  end.

Definition array_or_empty (l : option (list (option ManualSlice)))
  : list (option ManualSlice) :=
  match l with
  | Some l => l
  | None => []
  end.

(** The arguments the handler passes to [buildAndUploadSlices]. *)
Definition push_args (apiKey safeBatchName : string) (req : PushRequest) : BuildArgs :=
  mkBuildArgs apiKey safeBatchName
    (str_or_empty (req_imageBase64 req))
    (dim (req_logicalWidth req)) (dim (req_logicalHeight req))
    (num_or (req_pixelRatio req) 1)
    (num_or (req_headerHeight req) 0)
    (num_or (req_footerHeight req) 0)
    (num_or (req_maxSliceHeight req) 1200)
    (array_or_empty (req_manualSlices req)).

(** [String(batchName || frameName || 'Figma Export')] *)
Definition safeBatchName_of (req : PushRequest) : string :=
  str_or_empty
    (or_else (req_batchName req)
       (or_else (req_frameName req) (Some "Figma Export"%string))).

(** [!safeBatchName || !imageBase64 || !lw || !lh] *)
Definition missing_fields (req : PushRequest) : bool :=
  (negb (nonempty (safeBatchName_of req)) || negb (truthy (req_imageBase64 req))
   || (dim (req_logicalWidth req) =? 0) || (dim (req_logicalHeight req) =? 0))%bool.

Definition missing_fields_error : string :=
  "Missing required fields: batchName/imageBase64/logicalWidth/logicalHeight"%string.

Definition push (env : Env) (req : PushRequest) : M HttpResponse :=
  try_catch
    (match resolveApiKey env (req_accountId req) with
     | ResolvedErr error => ret (JsonError 500 error)
     | ResolvedOk accountId apiKey _ =>
         let safeBatchName := safeBatchName_of req in
         if missing_fields req then ret (JsonError 400 missing_fields_error)
         else
           built <- buildAndUploadSlices (push_args apiKey safeBatchName req) ;;
           let slices := number_slices 0 (slices built) in
           ret (Json200
                  (mkPushBody accountId safeBatchName
                     (if truthy (req_frameName req) then req_frameName req else None)
                     (List.length slices)
                     (match array_or_empty (req_manualSlices req) with
                      | [] => false
                      | _ => true
                      end)
                     (targetSliceKb cfg) slices))
     end)
    (fun error => ret (JsonError 500 (error_text error))).

End Pipeline.

End Server.

(** ** The slicing helpers of the Figma plugin *)

Module Plugin.
Import Js.

(** [absoluteBoundingBox] *)
Record Bounds : Type := mkBounds {
  bounds_x : Q;
  bounds_y : Q;
  bounds_width : Q;
  bounds_height : Q
}.

Record SceneNode : Type := mkSceneNode {
  visible : bool;
  absoluteBoundingBox : option Bounds
}.

(** A frame: [children] is absent for a node kind without children, and
    an entry of it may be [null]. *)
Record FrameNode : Type := mkFrameNode {
  node_width : Q;
  node_height : Q;
  frame_bounds : option Bounds;
  children : option (list (option SceneNode))
}.

(** The options of [suggestSlices]; an absent field is [undefined]. *)
Record Opts : Type := mkOpts {
  headerHeight : option Q;
  footerHeight : option Q;
  maxSliceHeight : option Q
}.

Definition getBounds (b : option Bounds) : option Bounds := b.

Definition clamp (n min max : Z) : Z := Z.max min (Z.min max n).

Definition toInt (n : option Q) (fallback : Z) : Z :=
  match n with
  | Some parsed => Math_round parsed
  | None => fallback
  end.

Record Interval : Type := mkInterval {
  start : Z;
  end_ : Z
}.

(** [intervals.sort((a, b) => a.start - b.start)], a stable sort. *)
Fixpoint insert_by_start (iv : Interval) (sorted : list Interval) : list Interval :=
  match sorted with
  | [] => [iv]
  | h :: t =>
      if start iv <=? start h then iv :: sorted
      else h :: insert_by_start iv t
  end.

Definition sort_by_start (intervals : list Interval) : list Interval :=
  fold_right insert_by_start [] intervals.

(** The [for] loop of [mergeIntervals]; [prev] is the last element of
    [merged], which the loop updates in place. *)
Fixpoint merge_loop (joinGap : Z) (prev : Interval) (rest : list Interval)
  : list Interval :=
  match rest with
  | [] => [prev]
  | cur :: rest' =>
      if start cur <=? end_ prev + joinGap then
        merge_loop joinGap (mkInterval (start prev) (Z.max (end_ prev) (end_ cur))) rest'
      else prev :: merge_loop joinGap cur rest'
  end.

Definition mergeIntervals (intervals : list Interval) (joinGap : Z) : list Interval :=
  match sort_by_start intervals with
  | [] => []
  | first :: rest => merge_loop joinGap first rest
  end.

(** The [while (y < interval.end)] loop; [None] when the fuel does not
    reach the exit. *)
Fixpoint split_loop (fuel : nat) (stop maxH y : Z) : option (list Interval) :=
  if y <? stop then
    match fuel with
    | O => None
    | S fuel' =>
        let h := Z.min maxH (stop - y) in
        option_map (cons (mkInterval y (y + h))) (split_loop fuel' stop maxH (y + h))
    end
  else Some [].

Definition splitByMaxHeight (interval : Interval) (maxH : Z) : option (list Interval) :=
  split_loop (Z.to_nat (end_ interval - start interval)) (end_ interval) maxH
    (start interval).

Record SliceRect : Type := mkSliceRect {
  x : Z;
  y : Z;
  width : Z;
  height : Z
}.

Record Slice : Type := mkSlice {
  rect : SliceRect;
  url : string;
  alt : string;
  label : string
}.

Definition full_width_slice (frameWidth y h : Z) : Slice :=
  mkSlice (mkSliceRect 0 y frameWidth h) EmptyString EmptyString EmptyString.

(** The body of the loop over [frameNode.children]: [None] is [continue]. *)
Definition child_interval
    (frame_y : Q) (bodyTop bodyBottom minSectionHeight minWidth : Z)
    (child : option SceneNode) : option Interval :=
  match child with
  | None => None
  | Some child =>
      if negb (visible child) then None
      else
        match getBounds (absoluteBoundingBox child) with
        | None => None
        | Some b =>
            let relY := Math_round (bounds_y b - frame_y) in
            let relH := Math_round (bounds_height b) in
            let relW := Math_round (bounds_width b) in
            if relW <? minWidth then None
            else if relH <? minSectionHeight then None
            else
              let start := clamp relY bodyTop bodyBottom in
              let end_ := clamp (relY + relH) bodyTop bodyBottom in
              if end_ - start <? minSectionHeight then None
              else Some (mkInterval start end_)
        end
  end.

Fixpoint child_intervals
    (frame_y : Q) (bodyTop bodyBottom minSectionHeight minWidth : Z)
    (children : list (option SceneNode)) : list Interval :=
  match children with
  | [] => []
  | child :: rest =>
      match child_interval frame_y bodyTop bodyBottom minSectionHeight minWidth child with
      | Some iv =>
          iv :: child_intervals frame_y bodyTop bodyBottom minSectionHeight minWidth rest
      | None =>
          child_intervals frame_y bodyTop bodyBottom minSectionHeight minWidth rest
      end
  end.

(** The inner loop over the chunks of one merged interval. *)
Fixpoint chunk_slices (frameWidth : Z) (chunks : list Interval) : list Slice :=
  match chunks with
  | [] => []
  | c :: rest =>
      let h := end_ c - start c in
      if h <? 8 then chunk_slices frameWidth rest
      else full_width_slice frameWidth (start c) h :: chunk_slices frameWidth rest
  end.

(** The outer loop over [merged]. *)
Fixpoint merged_slices (frameWidth maxSliceHeight : Z) (merged : list Interval)
  : option (list Slice) :=
  match merged with
  | [] => Some []
  | m :: rest =>
      match splitByMaxHeight m maxSliceHeight with
      | None => None
      | Some chunks =>
          option_map (app (chunk_slices frameWidth chunks))
            (merged_slices frameWidth maxSliceHeight rest)
      end
  end.

(** The fallback [while (y < bodyBottom)] loop. *)
Fixpoint fallback_loop (fuel : nat) (frameWidth bodyBottom maxSliceHeight y : Z)
  : option (list Slice) :=
  if y <? bodyBottom then
    match fuel with
    | O => None
    | S fuel' =>
        let h2 := Z.min maxSliceHeight (bodyBottom - y) in
        option_map (cons (full_width_slice frameWidth y h2))
          (fallback_loop fuel' frameWidth bodyBottom maxSliceHeight (y + h2))
    end
  else Some [].

Definition frameHeight_of (frameNode : FrameNode) : Z := Math_round (node_height frameNode).

Definition bodyTop_of (frameNode : FrameNode) (opts : Opts) : Z :=
  clamp (toInt (headerHeight opts) 0) 0 (frameHeight_of frameNode).

Definition bodyBottom_of (frameNode : FrameNode) (opts : Opts) : Z :=
  frameHeight_of frameNode
  - clamp (toInt (footerHeight opts) 0) 0 (frameHeight_of frameNode).

Definition maxSliceHeight_of (opts : Opts) : Z :=
  Z.max 200 (toInt (maxSliceHeight opts) 1200).


(** [suggestSlices]; [None] stands for a loop that never exits. *)
Definition suggestSlices (frameNode : FrameNode) (opts : Opts) : option (list Slice) :=
  match getBounds (frame_bounds frameNode) with
  | None => Some []
  | Some frameBounds =>
      let frameWidth := Math_round (node_width frameNode) in
      let frameHeight := Math_round (node_height frameNode) in
      let headerHeight := clamp (toInt (headerHeight opts) 0) 0 frameHeight in
      let footerHeight := clamp (toInt (footerHeight opts) 0) 0 frameHeight in
      let maxSliceHeight := Z.max 200 (toInt (maxSliceHeight opts) 1200) in
      let bodyTop := headerHeight in
      let bodyBottom := frameHeight - footerHeight in
      if bodyBottom <=? bodyTop then Some []
      else
        let minSectionHeight :=
          Z.max 40 (Math_round (inject_Z frameHeight * (3 # 100))) in
        let minWidth := Z.max 120 (Math_round (inject_Z frameWidth * (55 # 100))) in
        let joinGap := Z.max 12 (Math_round (inject_Z frameHeight * (1 # 100))) in
        let intervals :=
          match children frameNode with
          | Some children =>
              child_intervals (bounds_y frameBounds) bodyTop bodyBottom
                minSectionHeight minWidth children
          | None => []
          end in
        let intervals :=
          match intervals with
          | [] => [mkInterval bodyTop bodyBottom]
          | _ => intervals
          end in
        let merged := mergeIntervals intervals joinGap in
        match merged_slices frameWidth maxSliceHeight merged with
        | None => None
        | Some [] =>
            fallback_loop (Z.to_nat (bodyBottom - bodyTop)) frameWidth bodyBottom
              maxSliceHeight bodyTop
        | Some slices => Some slices
        end
  end.

(** *** Frame selection and the message handler *)

(** A node of the document, with the geometry and children it has as a
    frame. *)
Record Node : Type := mkNode {
  id : string;
  name : string;
  type : string;
  frame : FrameNode
}.

Definition validTypes : list string :=
  ["FRAME"; "COMPONENT"; "COMPONENT_SET"; "SECTION"; "GROUP"; "INSTANCE"]%string.

Definition isValidFrameNode (node : option Node) : bool :=
  match node with
  | None => false
  | Some node =>
      if negb (existsb (String.eqb (type node)) validTypes) then false
      else match getBounds (frame_bounds (frame node)) with
           | Some _ => true
           | None => false
           end
  end.

Record FramePayload : Type := mkFramePayload {
  payload_id : string;
  payload_name : string;
  payload_width : Z;
  payload_height : Z
}.

(** [framePayload]; [None] is the [TypeError] on a node without bounds. *)
Definition framePayload (node : Node) : option FramePayload :=
  match getBounds (frame_bounds (frame node)) with
  | Some b =>
      Some (mkFramePayload (id node) (name node)
              (Math_round (bounds_width b)) (Math_round (bounds_height b)))
  | None => None
  end.

(** What the handler reads from the host: the selection of the current
    page, the lookup of a node by its id, the export of a node at a scale
    (bytes, or the message of the rejection) and the base64 encoder. *)
Record Figma : Type := mkFigma {
  selection : list Node;
  getNodeById : string -> option Node;
  exportAsync : Node -> Z -> option string + list byte;
  base64Encode : list byte -> string
}.

(** [{ frame, error }] *)
Definition getSelectedFrame (figma : Figma) : option Node * option string :=
  match selection figma with
  | [] => (None, Some "Select a frame."%string)
  | [node] =>
      if negb (isValidFrameNode (Some node)) then
        (None, Some (name node ++ " is a " ++ type node ++ ", not a frame.")%string)
      else (Some node, None)
  | _ :: _ :: _ => (None, Some "Select only one frame."%string)
  end.

(** [resolveActiveFrame]: the frame, and [lockedFrameId] afterwards. *)
Definition resolveActiveFrame (figma : Figma) (lockedFrameId : option string)
  : option Node * option string :=
  let unlocked := (fst (getSelectedFrame figma), None) in
  if truthy lockedFrameId then
    let lockedNode := getNodeById figma (str_or_empty lockedFrameId) in
    if isValidFrameNode lockedNode then (lockedNode, lockedFrameId)
    else unlocked
  else (fst (getSelectedFrame figma), lockedFrameId).

(** The messages posted to the panel. *)
Inductive UiMessage : Type :=
| Update (frame : option FramePayload) (error : option string) (locked : bool)
| LockResult (ok : bool) (error : option string) (locked : option bool)
| PreviewDone (base64 : string) (logicalWidth logicalHeight : Z) (name : string)
| PreviewError (message : string)
| SuggestDone (slices : list Slice) (count : nat)
| SuggestError (message : string)
| ExportDone (base64 : string) (logicalWidth logicalHeight pixelRatio : Z)
    (exportWidth exportHeight : Z) (name : string)
    (manualSlices : list (option Server.ManualSlice))
| ExportError (message : string).

Inductive Effect : Type :=
| Post (message : UiMessage)
| Notify (text : string).

(** [sendSelection]: [lockedFrameId] afterwards and what is posted.  A
    node without bounds would end it with the [TypeError] of
    [framePayload] and post nothing. *)
Definition sendSelection (figma : Figma) (lockedFrameId : option string)
  : option string * list Effect :=
  let (node, lockedFrameId) := resolveActiveFrame figma lockedFrameId in
  match node with
  | Some node =>
      match framePayload node with
      | Some payload =>
          (lockedFrameId, [Post (Update (Some payload) None (truthy lockedFrameId))])
      | None => (lockedFrameId, [])
      end
  | None =>
      let sel := getSelectedFrame figma in
      (lockedFrameId, [Post (Update None (snd sel) false)])
  end.

(** The messages of the panel; [Unknown] is a message without a type or
    with a type the handler does not know. *)
Inductive PluginMessage : Type :=
| Refresh
| LockFrame
| UnlockFrame
| Preview
| AutoSuggest (opts : Opts)
| Export (manualSlices : option (list (option Server.ManualSlice)))
| NotifyUser (message : option string)
| Unknown.

(** [err.message || fallback] *)
Definition message_or (message : option string) (fallback : string) : string :=
  if truthy message then str_or_empty message else fallback.

(** [figma.ui.onmessage]: [lockedFrameId] afterwards and the effects, in
    order; [None] when the suggestion never returns.  The message of an
    export is posted when its promise settles; it is listed here with the
    call that started it. *)
Definition onmessage (figma : Figma) (lockedFrameId : option string)
    (msg : PluginMessage) : option (option string * list Effect) :=
  match msg with
  | Unknown => Some (lockedFrameId, [])
  | Refresh => Some (sendSelection figma lockedFrameId)
  | LockFrame =>
      let sel := getSelectedFrame figma in
      match fst sel with
      | None => Some (lockedFrameId, [Post (LockResult false (snd sel) None)])
      | Some frame =>
          let (locked, posted) := sendSelection figma (Some (id frame)) in
          Some (locked, posted ++ [Post (LockResult true None (Some true))])
      end
  | UnlockFrame =>
      let (locked, posted) := sendSelection figma None in
      Some (locked, posted ++ [Post (LockResult true None (Some false))])
  | Preview =>
      let (previewNode, locked) := resolveActiveFrame figma lockedFrameId in
      match previewNode with
      | None => Some (locked, [Post (PreviewError "No frame selected")])
      | Some previewNode =>
          match exportAsync figma previewNode 1 with
          | inr bytes =>
              Some (locked,
                    [Post (PreviewDone (base64Encode figma bytes)
                             (Math_round (node_width (frame previewNode)))
                             (Math_round (node_height (frame previewNode)))
                             (name previewNode))])
          | inl err =>
              Some (locked, [Post (PreviewError (message_or err "Preview export failed"))])
          end
      end
  | AutoSuggest opts =>
      let (activeNode, locked) := resolveActiveFrame figma lockedFrameId in
      match activeNode with
      | None => Some (locked, [Post (SuggestError "No frame selected")])
      | Some activeNode =>
          match suggestSlices (frame activeNode) opts with
          | Some suggestions =>
              Some (locked, [Post (SuggestDone suggestions (List.length suggestions))])
          | None => None
          end
      end
  | Export manualSlices =>
      let (node, locked) := resolveActiveFrame figma lockedFrameId in
      match node with
      | None => Some (locked, [Post (ExportError "No frame selected")])
      | Some node =>
          let exportScale := 2 in
          match exportAsync figma node exportScale with
          | inr bytes =>
              Some (locked,
                    [Post (ExportDone (base64Encode figma bytes)
                             (Math_round (node_width (frame node)))
                             (Math_round (node_height (frame node)))
                             exportScale
                             (Math_round (node_width (frame node) * inject_Z exportScale))
                             (Math_round (node_height (frame node) * inject_Z exportScale))
                             (name node)
                             (match manualSlices with
                              | Some l => l
                              | None => []
                              end))])
          | inl err =>
              Some (locked, [Post (ExportError (message_or err "Export failed"))])
          end
      end
  | NotifyUser message => Some (lockedFrameId, [Notify (message_or message "Done")])
  end.

(** [figma.on("selectionchange", ...)] *)
Definition on_selectionchange (figma : Figma) (lockedFrameId : option string)
  : option string * list Effect :=
  sendSelection figma lockedFrameId.

End Plugin.

(** * Vocabulary of the properties *)

Module Vocabulary.
Import Js.

(** A configured binding: the variable is set and not empty. *)
Definition binding (env : Server.Env) (name : string) : option string :=
  match env name with
  | Some (String c k) => Some (String c k)
  | _ => None
  end.

(** The default credential and the variable it comes from. *)
Definition default_credential (env : Server.Env) : option (string * string) :=
  match binding env "KLAVIYO_API_KEY" with
  | Some k => Some (k, "KLAVIYO_API_KEY"%string)
  | None =>
      match binding env "KLAVIYO_PRIVATE_KEY" with
      | Some k => Some (k, "KLAVIYO_PRIVATE_KEY"%string)
      | None => None
      end
  end.


(** The scenario of the specification, as it states it. *)
Definition scenario_gives_hyphenated : Prop :=
  Server.normalizeAccountId (Some "ACME Corp!"%string) = "acme-corp"%string.

(** An environment with one account binding. *)
Definition env_acme : Server.Env :=
  fun name =>
    if String.eqb name "KLAVIYO_API_KEY_ACMECORP" then Some "pk_live_1"%string
    else None.

(** A logical rectangle fully inside the logical frame. *)
Definition inside_frame (logicalWidth logicalHeight : Z) (r : Server.Rect) : Prop :=
  0 <= Server.x r /\ 0 <= Server.y r
  /\ 0 < Server.width r /\ 0 < Server.height r
  /\ Server.x r + Server.width r <= logicalWidth
  /\ Server.y r + Server.height r <= logicalHeight.

(** An extraction request that stays within the source image. *)
Definition within_source (sourceWidth sourceHeight : Z) (e : Server.ExtractRect) : Prop :=
  0 <= Server.left e /\ 0 <= Server.top e
  /\ 1 <= Server.ex_width e /\ 1 <= Server.ex_height e
  /\ Server.left e + Server.ex_width e <= sourceWidth
  /\ Server.top e + Server.ex_height e <= sourceHeight.

(** A rectangle handed back to the normalizer as a manual entry. *)
Definition as_manual (r : Server.Rect) : option Server.ManualSlice :=
  Some (Server.mkManualSlice
          (Some (Server.mkRawRect
                   (Some (inject_Z (Server.x r))) (Some (inject_Z (Server.y r)))
                   (Some (inject_Z (Server.width r)))
                   (Some (inject_Z (Server.height r)))))
          (Some (Server.url r)) (Some (Server.label r)) (Some (Server.alt r))).

(** An integer rectangle of at least 2 by 2 inside the frame width and
    the body region. *)
Definition in_bounds (logicalWidth bodyTop bodyBottom : Z) (r : Server.Rect) : Prop :=
  0 <= Server.x r /\ Server.x r + Server.width r <= logicalWidth
  /\ bodyTop <= Server.y r /\ Server.y r + Server.height r <= bodyBottom
  /\ 2 <= Server.width r /\ 2 <= Server.height r.

Definition same_geometry (a b : Server.Rect) : Prop :=
  Server.x a = Server.x b /\ Server.y a = Server.y b
  /\ Server.width a = Server.width b /\ Server.height a = Server.height b.

(** An entry the normalizer skips before looking at its numbers. *)
Definition lacks_rect (s : option Server.ManualSlice) : bool :=
  match s with
  | None => true
  | Some s =>
      match Server.rect s with
      | None => true
      | Some _ => false
      end
  end.

(** The source image decodes and has the given non-zero dimensions. *)
Definition readable (w : Server.World) (a : Server.BuildArgs) (sourceWidth sourceHeight : Z)
  : Prop :=
  Server.sharp_metadata w (Server.Buffer_from_base64 w (Server.sourceBase64 a))
  = inr (Some sourceWidth, Some sourceHeight)
  /\ sourceWidth <> 0 /\ sourceHeight <> 0.

(** No extraction, encode or upload was attempted. *)
Definition no_slice_attempted (t : list Event) : Prop :=
  filter is_slice_event t = [].

(** [targetSliceKb * 1024] *)
Definition targetBytes_of (cfg : Server.Config) : Q :=
  (Server.targetSliceKb cfg * 1024)%Q.

(** The configuration when the environment sets none of the three
    variables. *)
Definition default_config : Server.Config := Server.mkConfig 80 60 250.

(** The vertical span of a rectangle: its top row and its height. *)
Definition span : Type := (Z * Z)%type.

Definition plugin_span (s : Plugin.Slice) : span :=
  (Plugin.y (Plugin.rect s), Plugin.height (Plugin.rect s)).

Definition server_span (r : Server.Rect) : span := (Server.y r, Server.height r).

Definition interval_span (iv : Plugin.Interval) : span :=
  (Plugin.start iv, Plugin.end_ iv - Plugin.start iv).



(** Spans in top-to-bottom order inside [lo, hi), none overlapping the
    one before it; gaps are allowed. *)
Inductive stacked (hi : Z) : Z -> list span -> Prop :=
| stacked_nil : forall lo, stacked hi lo []
| stacked_cons : forall lo top h rest,
    lo <= top -> 0 < h -> top + h <= hi ->
    stacked hi (top + h) rest ->
    stacked hi lo ((top, h) :: rest).

(** Spans that tile [lo, hi) from top to bottom without a gap. *)
Inductive tiled (hi : Z) : Z -> list span -> Prop :=
| tiled_nil : forall lo, hi <= lo -> tiled hi lo []
| tiled_cons : forall lo h rest,
    0 < h -> lo + h <= hi ->
    tiled hi (lo + h) rest ->
    tiled hi lo ((lo, h) :: rest).

(** Merged intervals: in order inside [lo, hi], not empty, disjoint. *)
Inductive separated (hi : Z) : Z -> list Plugin.Interval -> Prop :=
| separated_nil : forall lo, separated hi lo []
| separated_cons : forall lo iv rest,
    lo <= Plugin.start iv -> Plugin.start iv < Plugin.end_ iv ->
    Plugin.end_ iv <= hi ->
    separated hi (Plugin.end_ iv) rest ->
    separated hi lo (iv :: rest).

(** The order of [a.start - b.start]. *)
Definition by_start (a b : Plugin.Interval) : Prop := Plugin.start a <= Plugin.start b.

(** An interval that is not empty and lies inside [lo, hi]. *)
Definition interval_within (lo hi : Z) (iv : Plugin.Interval) : Prop :=
  lo <= Plugin.start iv /\ Plugin.start iv < Plugin.end_ iv /\ Plugin.end_ iv <= hi.




(** A world in which every call succeeds but the upload of the second
    slice of the batch [Newsletter]. *)
Definition second_upload_fails : Server.World :=
  Server.mkWorld
    (fun _ => [])
    (fun _ => EmptyString)
    (fun _ => inr (Some 1200, Some 4000))
    (fun _ _ => inr ([x00], false))
    (fun b => inr b)
    (fun b _ => inr b)
    (fun _ name _ _ =>
       if String.eqb name "Newsletter-slice-2" then inl "socket hang up"%string
       else inr (Server.mkFetchResponse true 200 None None
                   (Some "https://cdn.example/img.jpg"%string))).

(** A world in which every call succeeds. *)
Definition every_call_succeeds : Server.World :=
  Server.mkWorld
    (fun _ => [])
    (fun _ => EmptyString)
    (fun _ => inr (Some 1200, Some 4000))
    (fun _ _ => inr ([x00], false))
    (fun b => inr b)
    (fun b _ => inr b)
    (fun _ _ _ _ =>
       inr (Server.mkFetchResponse true 200 None None
              (Some "https://cdn.example/img.jpg"%string))).

(** A 600 by 2000 frame exported at 2x, to be tiled by the backend. *)
Definition newsletter_request : Server.PushRequest :=
  Server.mkPushRequest (Some "Newsletter"%string) (Some "aGVsbG8="%string)
    (Some 600) (Some 2000) (Some 2%Q) None None None None None
    (Some "ACME Corp!"%string).

(** The same frame with a header of 1200 and a footer of 900. *)
Definition no_body_args : Server.BuildArgs :=
  Server.mkBuildArgs "pk_live_1" "Newsletter" "aGVsbG8=" 600 2000 2 1200 900 1200 [].

(** A 1000 by 2000 frame without children. *)
Definition childless_frame : Plugin.FrameNode :=
  Plugin.mkFrameNode 1000 2000 (Some (Plugin.mkBounds 0 0 1000 2000)) None.

(** The manual entry of the scenario: [{x: -10, y: 50, width: 50, height: 50}]. *)
Definition scenario_entry : option Server.ManualSlice :=
  Some (Server.mkManualSlice
          (Some (Server.mkRawRect (Some (-10 # 1)) (Some 50%Q) (Some 50%Q) (Some 50%Q)))
          None None None).

(** The manual rectangle of the scenario, once clamped. *)
Definition scenario_rect : Server.Rect :=
  Server.mkRect 0 100 50 50 EmptyString EmptyString EmptyString.

(** The extraction rectangle that is the logical one times [k]. *)
Definition scaled_rect (k : Z) (r : Server.Rect) : Server.ExtractRect :=
  Server.mkExtractRect (Server.x r * k) (Server.y r * k)
    (Server.width r * k) (Server.height r * k).

(** A rectangle of the backend tiling: full width, no link, no text. *)
Definition plain_full_width (logicalWidth : Z) (r : Server.Rect) : Prop :=
  Server.x r = 0 /\ Server.width r = logicalWidth
  /\ Server.url r = EmptyString /\ Server.label r = EmptyString
  /\ Server.alt r = EmptyString.

(** A manual entry asking for the whole of a 1 by 1000 frame. *)
Definition sliver_entry : option Server.ManualSlice :=
  Some (Server.mkManualSlice
          (Some (Server.mkRawRect (Some 0%Q) (Some 0%Q) (Some 1%Q) (Some 1000%Q)))
          None None None).

(** The names of the uploads of a trace, in order. *)
Fixpoint upload_names (t : list Event) : list string :=
  match t with
  | [] => []
  | EvUpload name :: r => name :: upload_names r
  | _ :: r => upload_names r
  end.

(** The name under which the slice number [i] of a batch is uploaded. *)
Definition slice_name (batchName : string) (i : nat) : string :=
  (batchName ++ "-slice-" ++ Server.string_of_nat i)%string.

Definition unreadable_error : string :=
  "Could not read exported image dimensions."%string.

(** An upload API that answers 200 without an image address. *)
Definition answers_without_url : Server.World :=
  Server.mkWorld
    (fun _ => [])
    (fun _ => EmptyString)
    (fun _ => inr (Some 1200, Some 4000))
    (fun _ _ => inr ([x00], false))
    (fun b => inr b)
    (fun b _ => inr b)
    (fun _ _ _ _ => inr (Server.mkFetchResponse true 200 None None None)).

(** A codec that cannot read the size of the image. *)
Definition reads_no_size : Server.World :=
  Server.mkWorld
    (fun _ => [])
    (fun _ => EmptyString)
    (fun _ => inr (None, None))
    (fun _ _ => inr ([x00], false))
    (fun b => inr b)
    (fun b _ => inr b)
    (fun _ _ _ _ =>
       inr (Server.mkFetchResponse true 200 None None
              (Some "https://cdn.example/img.jpg"%string))).

(** The arguments the handler builds for the newsletter request. *)
Definition newsletter_args : Server.BuildArgs :=
  Server.mkBuildArgs "pk_live_1" "Newsletter" "aGVsbG8=" 600 2000 2 0 0 1200 [].

(** The interval [m] contains the interval [c]. *)
Definition contains (m c : Plugin.Interval) : Prop :=
  Plugin.start m <= Plugin.start c /\ Plugin.end_ c <= Plugin.end_ m.

(** Consecutive intervals are more than [gap] apart. *)
Inductive apart (gap : Z) : list Plugin.Interval -> Prop :=
| apart_nil : apart gap []
| apart_one : forall iv, apart gap [iv]
| apart_cons : forall a b rest,
    Plugin.end_ a + gap < Plugin.start b ->
    apart gap (b :: rest) ->
    apart gap (a :: b :: rest).


(** A suggested slice as a rectangle of the backend. *)
Definition to_server_rect (s : Plugin.Slice) : Server.Rect :=
  Server.mkRect (Plugin.x (Plugin.rect s)) (Plugin.y (Plugin.rect s))
    (Plugin.width (Plugin.rect s)) (Plugin.height (Plugin.rect s))
    (Plugin.url s) (Plugin.label s) (Plugin.alt s).

(** A suggested slice: left edge, full width, no link and no text. *)
Definition suggested_shape (frameWidth : Z) (s : Plugin.Slice) : Prop :=
  Plugin.x (Plugin.rect s) = 0 /\ Plugin.width (Plugin.rect s) = frameWidth
  /\ Plugin.url s = EmptyString /\ Plugin.alt s = EmptyString
  /\ Plugin.label s = EmptyString.

(** A lock that is set names a valid frame of the document. *)
Definition lock_holds (figma : Plugin.Figma) (lockedFrameId : option string) : Prop :=
  Js.truthy lockedFrameId = true ->
  Plugin.isValidFrameNode
    (Plugin.getNodeById figma (Js.str_or_empty lockedFrameId)) = true.

(** A 600 by 900 frame named [Hero]. *)
Definition hero_node : Plugin.Node :=
  Plugin.mkNode "12:7" "Hero" "FRAME"
    (Plugin.mkFrameNode 600 900 (Some (Plugin.mkBounds 40 80 600 900)) None).

(** A text layer. *)
Definition text_node : Plugin.Node :=
  Plugin.mkNode "12:9" "Headline" "TEXT"
    (Plugin.mkFrameNode 300 40 (Some (Plugin.mkBounds 60 100 300 40)) None).

(** A document in which [Hero] is selected. *)
Definition hero_selected : Plugin.Figma :=
  Plugin.mkFigma [hero_node]
    (fun i => if String.eqb i "12:7" then Some hero_node else None)
    (fun _ _ => inr [x00])
    (fun _ => "AA=="%string).

(** The same document with the text layer selected. *)
Definition text_selected : Plugin.Figma :=
  Plugin.mkFigma [text_node]
    (fun i => if String.eqb i "12:7" then Some hero_node else None)
    (fun _ _ => inr [x00])
    (fun _ => "AA=="%string).

(** [-] read as [_]. *)
Definition hyphen_as_underscore (c : ascii) : ascii :=
  if Ascii.eqb c "-" then "_"%char else c.

(** A character of the name of an environment variable. *)
Definition env_name_char (c : ascii) : bool :=
  (Js.is_upper c || Js.is_digit c || Ascii.eqb c "_")%bool.

(** An environment with a default credential only. *)
Definition env_default_only : Server.Env :=
  fun name =>
    if String.eqb name "KLAVIYO_API_KEY" then Some "pk_default"%string else None.

(** A string that reads [http://] or [https://] when the case of its
    letters is ignored. *)
Definition is_http_scheme (scheme : string) : Prop :=
  Js.toLowerCase scheme = "http://"%string \/ Js.toLowerCase scheme = "https://"%string.

(** The number of lossy encodes a run asked of the codec. *)
Definition encodes (t : list Event) : nat := List.length (jpeg_qualities t).

(** The bound on the encodes of the quality search as the specification
    words it, [(default - floor) / 5 + 1], with the division exact. *)
Definition stated_encode_bound (cfg : Server.Config) : Q :=
  (inject_Z (Server.defaultJpegQuality cfg - Server.minJpegQuality cfg) / inject_Z 5
   + inject_Z 1)%Q.

Definition within_stated_bound (cfg : Server.Config) (t : list Event) : Prop :=
  (inject_Z (Z.of_nat (encodes t)) <= stated_encode_bound cfg)%Q.

(** The default quality 80 over a floor of 62, with a target of 1 KB. *)
Definition floor_62_config : Server.Config := Server.mkConfig 80 62 1.

(** A world whose codec returns 2000 bytes at every quality. *)
Definition never_under_target : Server.World :=
  Server.mkWorld
    (fun _ => [])
    (fun _ => EmptyString)
    (fun _ => inr (Some 1200, Some 4000))
    (fun _ _ => inr ([x00], false))
    (fun b => inr b)
    (fun _ _ => inr (repeat x00 2000))
    (fun _ _ _ _ =>
       inr (Server.mkFetchResponse true 200 None None
              (Some "https://cdn.example/img.jpg"%string))).

End Vocabulary.

(** * Properties *)

Import Vocabulary.

(** ** Arithmetic of the primitives *)

Section Primitives.
Import Js.

Lemma Math_round_integer (z : Z) : Math_round (inject_Z z) = z.
Proof.
  unfold Math_round, Qfloor, Qplus, inject_Z. simpl.
  replace (z * 2 + 1) with (1 + z * 2) by lia.
  rewrite Z.div_add by lia. reflexivity.
Qed.

Lemma Math_round_num_or_integer (z : Z) :
  Math_round (num_or (Some (inject_Z z)) 0) = z.
Proof.
  unfold num_or. destruct (Qeq_bool (inject_Z z) 0) eqn:E.
  - apply Qeq_bool_eq in E. unfold Qeq, inject_Z in E. simpl in E.
    assert (z = 0) by lia. subst. reflexivity.
  - apply Math_round_integer.
Qed.


Lemma server_clamp_bounds (n lo hi : Z) :
  lo <= hi -> lo <= Server.clamp n lo hi <= hi.
Proof. unfold Server.clamp. lia. Qed.

Lemma server_clamp_id (n lo hi : Z) :
  lo <= n <= hi -> Server.clamp n lo hi = n.
Proof. unfold Server.clamp. lia. Qed.

Lemma plugin_clamp_bounds (n lo hi : Z) :
  lo <= hi -> lo <= Plugin.clamp n lo hi <= hi.
Proof. unfold Plugin.clamp. lia. Qed.

End Primitives.

(** ** Credential routing *)

Section Credentials.
Import Js Server.
Local Open Scope string_scope.

Ltac each_ascii c :=
  destruct c as [[] [] [] [] [] [] [] []]; vm_compute; try reflexivity; try discriminate.

Lemma space_is_stripped (c : ascii) :
  is_space c = true -> account_char (lower_char c) = false.
Proof. each_ascii c. Qed.

Lemma strip_trimStart (s : string) :
  filter_string account_char (toLowerCase (trimStart s))
  = filter_string account_char (toLowerCase s).
Proof.
  induction s as [|c r IH]; simpl; [reflexivity|].
  destruct (is_space c) eqn:E; [|reflexivity].
  rewrite (space_is_stripped c E). exact IH.
Qed.

Lemma strip_cons (c : ascii) (s : string) :
  filter_string account_char (toLowerCase (String c s))
  = if account_char (lower_char c)
    then String (lower_char c) (filter_string account_char (toLowerCase s))
    else filter_string account_char (toLowerCase s).
Proof. reflexivity. Qed.

Lemma strip_trimEnd (s : string) :
  filter_string account_char (toLowerCase (trimEnd s))
  = filter_string account_char (toLowerCase s).
Proof.
  induction s as [|c r IH]; [reflexivity|].
  cbn [trimEnd]. destruct (trimEnd r) as [|c' r'] eqn:E.
  - rewrite (strip_cons c r), <- IH.
    destruct (is_space c) eqn:Ec.
    + rewrite (space_is_stripped c Ec). reflexivity.
    + rewrite strip_cons. reflexivity.
  - rewrite (strip_cons c (String c' r')), (strip_cons c r), IH. reflexivity.
Qed.

(** Trimming is subsumed: the result is the lower-cased input with every
    unit outside [a-z0-9_-] removed. *)
Lemma normalizeAccountId_filter (raw : option string) :
  normalizeAccountId raw
  = filter_string account_char (toLowerCase (str_or_empty raw)).
Proof.
  unfold normalizeAccountId, trim.
  rewrite strip_trimEnd, strip_trimStart. reflexivity.
Qed.

Lemma filter_string_forall (p : ascii -> bool) (s : string) :
  forall_string p (filter_string p s) = true.
Proof.
  induction s as [|c r IH]; simpl; [reflexivity|].
  destruct (p c) eqn:E; simpl; [rewrite E|]; exact IH.
Qed.

(** C2, the scenario as stated fails: the blank of ["ACME Corp!"] is
    removed, it is not turned into a hyphen, so the identifier is not
    ["acme-corp"]. *)
Lemma normalizeAccountId_scenario_counterexample : ~ scenario_gives_hyphenated.
Proof. unfold scenario_gives_hyphenated. vm_compute. discriminate. Qed.

(** C2 (amended): normalization lower-cases the raw identifier and removes
    every character outside [a-z0-9_-]: the result is that filter of the
    lower-cased input, and holds only allowed characters.  On
    ["ACME Corp!"] it gives ["acmecorp"], and the lookup reads exactly the
    binding [KLAVIYO_API_KEY_ACMECORP], failing with an error that names
    it when it is absent or empty. *)
Theorem normalizeAccountId_lowercases_and_strips :
  (forall raw : option string,
     normalizeAccountId raw
     = filter_string account_char (toLowerCase (str_or_empty raw))
     /\ forall_string account_char (normalizeAccountId raw) = true)
  /\ normalizeAccountId (Some "ACME Corp!") = "acmecorp"
  /\ forall env : Env,
       resolveApiKey env (Some "ACME Corp!")
       = match env "KLAVIYO_API_KEY_ACMECORP" with
         | Some (String c k) =>
             ResolvedOk "acmecorp" (String c k) "KLAVIYO_API_KEY_ACMECORP"
         | _ =>
             ResolvedErr (missing_key_error "acmecorp" "KLAVIYO_API_KEY_ACMECORP")
         end.
Proof.
  split; [|split].
  - intro raw. split.
    + apply normalizeAccountId_filter.
    + unfold normalizeAccountId. apply filter_string_forall.
  - reflexivity.
  - intro env. reflexivity.
Qed.

Lemma binding_spec (env : Env) (name key : string) :
  binding env name = Some key -> env name = Some key /\ nonempty key = true.
Proof.
  unfold binding. destruct (env name) as [[|c k]|]; try discriminate.
  intros [= <-]. split; reflexivity.
Qed.

Lemma binding_none (env : Env) (name : string) :
  binding env name = None -> env name = None \/ env name = Some "".
Proof.
  unfold binding. destruct (env name) as [[|c k]|]; try discriminate; auto.
Qed.



End Credentials.

(** ** Rectangle rescaling *)

Section Rescaler.
Import Js Server.

Lemma clampExtractRect_within (rect : Rect) (pixelRatio : Q) (sourceWidth sourceHeight : Z) :
  0 < sourceWidth -> 0 < sourceHeight ->
  within_source sourceWidth sourceHeight
    (clampExtractRect rect pixelRatio sourceWidth sourceHeight).
Proof.
  intros Hw Hh. unfold within_source, clampExtractRect, clamp. simpl.
  repeat split; lia.
Qed.

(** C5: for a scale factor of at least 1, a logical rectangle fully
    inside the logical frame and a source image of positive dimensions,
    the rescaled rectangle lies within the source image: its origin is not
    negative, it is at least one pixel wide and high, and it ends at or
    before the right and bottom edges. *)
Theorem clampExtractRect_inside_source
    (rect : Rect) (pixelRatio : Q)
    (logicalWidth logicalHeight sourceWidth sourceHeight : Z) :
  (1 <= pixelRatio)%Q ->
  inside_frame logicalWidth logicalHeight rect ->
  0 < sourceWidth -> 0 < sourceHeight ->
  let e := clampExtractRect rect pixelRatio sourceWidth sourceHeight in
  0 <= left e /\ 0 <= top e
  /\ left e + ex_width e <= sourceWidth
  /\ top e + ex_height e <= sourceHeight
  /\ 1 <= ex_width e /\ 1 <= ex_height e.
Proof.
  intros _ _ Hw Hh e.
  destruct (clampExtractRect_within rect pixelRatio sourceWidth sourceHeight Hw Hh)
    as (H1 & H2 & H3 & H4 & H5 & H6).
  subst e. repeat split; assumption.
Qed.

(** A 2x export one pixel short of twice the frame: the last slice of a
    600 by 450 frame against a 1199 by 899 image. *)
Lemma clampExtractRect_inside_source_witness :
  let e := clampExtractRect (mkRect 0 250 600 200 "" "" "") 2 1199 899 in
  0 <= left e /\ 0 <= top e
  /\ left e + ex_width e <= 1199
  /\ top e + ex_height e <= 899
  /\ 1 <= ex_width e /\ 1 <= ex_height e.
Proof.
  apply (clampExtractRect_inside_source (mkRect 0 250 600 200 "" "" "") 2 600 450).
  - unfold Qle. simpl. lia.
  - unfold inside_frame. simpl. lia.
  - lia.
  - lia.
Defined.

End Rescaler.

(** ** Manual slice normalization *)

Section ManualSlices.
Import Js Server.

Lemma clamp_idempotent (n lo hi : Z) : clamp (clamp n lo hi) lo hi = clamp n lo hi.
Proof. unfold clamp. lia. Qed.

Lemma safeUrl_idempotent (u : option string) : safeUrl (Some (safeUrl u)) = safeUrl u.
Proof.
  unfold safeUrl. destruct (has_http_scheme (str_or_empty u)) eqn:E; simpl.
  - rewrite E. reflexivity.
  - reflexivity.
Qed.

(** Whatever the normalizer lets through is a fixed point of it. *)
Lemma normalizeManualRect_fixed
    (logicalWidth logicalHeight bodyTop bodyBottom : Z)
    (s : option ManualSlice) (r : Rect) :
  normalizeManualRect logicalWidth logicalHeight bodyTop bodyBottom s = Some r ->
  normalizeManualRect logicalWidth logicalHeight bodyTop bodyBottom (as_manual r) = Some r.
Proof.
  unfold normalizeManualRect at 1.
  destruct s as [s|]; [|discriminate].
  destruct (rect s) as [raw|]; [|discriminate].
  set (x0 := clamp _ 0 _). set (y0 := clamp _ bodyTop _).
  set (w0 := clamp _ 1 (Z.max 1 (logicalWidth - x0))).
  set (h0 := clamp _ 1 (Z.max 1 (bodyBottom - y0))).
  destruct ((w0 <? 2) || (h0 <? 2))%bool eqn:E; [discriminate|].
  intros [= <-].
  unfold normalizeManualRect, as_manual.
  cbn [rect raw_x raw_y raw_width raw_height ms_url ms_label ms_alt str_or_empty
       x y width height url label alt].
  rewrite !Math_round_num_or_integer.
  assert (Hx : clamp x0 0 (Z.max 0 (logicalWidth - 1)) = x0)
    by (unfold x0; apply clamp_idempotent).
  assert (Hy : clamp y0 bodyTop (Z.max bodyTop (bodyBottom - 1)) = y0)
    by (unfold y0; apply clamp_idempotent).
  assert (Hw : clamp w0 1 (Z.max 1 (logicalWidth - x0)) = w0)
    by (unfold w0; apply clamp_idempotent).
  assert (Hh : clamp h0 1 (Z.max 1 (bodyBottom - y0)) = h0)
    by (unfold h0; apply clamp_idempotent).
  rewrite Hx, Hy, Hw, Hh, E, safeUrl_idempotent. reflexivity.
Qed.

Lemma normalizeManualRect_in_bounds
    (logicalWidth logicalHeight bodyTop bodyBottom : Z) (r : Rect) :
  in_bounds logicalWidth bodyTop bodyBottom r ->
  normalizeManualRect logicalWidth logicalHeight bodyTop bodyBottom (as_manual r)
  = Some (mkRect (x r) (y r) (width r) (height r)
            (safeUrl (Some (url r))) (label r) (alt r)).
Proof.
  intros (Hx & Hxw & Hy & Hyh & Hw & Hh).
  unfold normalizeManualRect, as_manual.
  cbn [rect raw_x raw_y raw_width raw_height ms_url ms_label ms_alt str_or_empty
       x y width height url label alt].
  rewrite !Math_round_num_or_integer.
  rewrite (server_clamp_id (x r)) by lia.
  rewrite (server_clamp_id (y r)) by lia.
  rewrite (server_clamp_id (width r)) by lia.
  rewrite (server_clamp_id (height r)) by lia.
  destruct (width r <? 2) eqn:E1; [apply Z.ltb_lt in E1; lia|].
  destruct (height r <? 2) eqn:E2; [apply Z.ltb_lt in E2; lia|].
  reflexivity.
Qed.

(** C7: an integer rectangle of at least 2 by 2 that lies within the
    frame width and the body region is kept with its geometry unchanged,
    and normalizing the result again yields the same rectangle. *)
Theorem normalizeManualRect_idempotent
    (logicalWidth logicalHeight bodyTop bodyBottom : Z) (r : Rect) :
  in_bounds logicalWidth bodyTop bodyBottom r ->
  exists once,
    normalizeManualRect logicalWidth logicalHeight bodyTop bodyBottom (as_manual r)
    = Some once
    /\ same_geometry once r
    /\ normalizeManualRect logicalWidth logicalHeight bodyTop bodyBottom (as_manual once)
       = Some once
    /\ normalizeManualRectSlices logicalWidth logicalHeight bodyTop bodyBottom
         (map as_manual
            (normalizeManualRectSlices logicalWidth logicalHeight bodyTop bodyBottom
               [as_manual r]))
       = normalizeManualRectSlices logicalWidth logicalHeight bodyTop bodyBottom
           [as_manual r].
Proof.
  intro Hin.
  pose proof (normalizeManualRect_in_bounds logicalWidth logicalHeight _ _ r Hin) as H1.
  pose proof (normalizeManualRect_fixed _ _ _ _ _ _ H1) as H2.
  eexists. split; [exact H1|]. split; [|split].
  - unfold same_geometry. simpl. auto.
  - exact H2.
  - cbn [normalizeManualRectSlices map]. rewrite H1.
    cbn [normalizeManualRectSlices map]. rewrite H2. reflexivity.
Qed.

(** The scenario rectangle after clamping, on a 500 wide frame with body
    [100, 900). *)
Lemma normalizeManualRect_idempotent_witness :
  exists once,
    normalizeManualRect 500 1000 100 900 (as_manual (mkRect 0 100 50 50 "" "" ""))
    = Some once
    /\ same_geometry once (mkRect 0 100 50 50 "" "" "")
    /\ normalizeManualRect 500 1000 100 900 (as_manual once) = Some once
    /\ normalizeManualRectSlices 500 1000 100 900
         (map as_manual
            (normalizeManualRectSlices 500 1000 100 900
               [as_manual (mkRect 0 100 50 50 "" "" "")]))
       = normalizeManualRectSlices 500 1000 100 900
           [as_manual (mkRect 0 100 50 50 "" "" "")].
Proof.
  apply (normalizeManualRect_idempotent 500 1000 100 900 (mkRect 0 100 50 50 "" "" "")).
  unfold in_bounds. simpl. lia.
Defined.

Lemma normalizeManualRectSlices_idempotent
    (logicalWidth logicalHeight bodyTop bodyBottom : Z)
    (l : list (option ManualSlice)) :
  normalizeManualRectSlices logicalWidth logicalHeight bodyTop bodyBottom
    (map as_manual
       (normalizeManualRectSlices logicalWidth logicalHeight bodyTop bodyBottom l))
  = normalizeManualRectSlices logicalWidth logicalHeight bodyTop bodyBottom l.
Proof.
  induction l as [|s l IH]; [reflexivity|].
  cbn [normalizeManualRectSlices].
  destruct (normalizeManualRect logicalWidth logicalHeight bodyTop bodyBottom s)
    as [r|] eqn:E; [|exact IH].
  cbn [map normalizeManualRectSlices].
  rewrite (normalizeManualRect_fixed _ _ _ _ _ _ E), IH. reflexivity.
Qed.

Lemma normalizeManualRect_lacks_rect
    (logicalWidth logicalHeight bodyTop bodyBottom : Z) (s : option ManualSlice) :
  lacks_rect s = true ->
  normalizeManualRect logicalWidth logicalHeight bodyTop bodyBottom s = None.
Proof.
  unfold lacks_rect, normalizeManualRect.
  destruct s as [s|]; [|reflexivity].
  destruct (rect s); [discriminate | reflexivity].
Qed.

Lemma normalizeManualRectSlices_app
    (logicalWidth logicalHeight bodyTop bodyBottom : Z)
    (l1 l2 : list (option ManualSlice)) :
  normalizeManualRectSlices logicalWidth logicalHeight bodyTop bodyBottom (l1 ++ l2)
  = normalizeManualRectSlices logicalWidth logicalHeight bodyTop bodyBottom l1
    ++ normalizeManualRectSlices logicalWidth logicalHeight bodyTop bodyBottom l2.
Proof.
  induction l1 as [|s l1 IH]; [reflexivity|].
  cbn [app normalizeManualRectSlices].
  destruct (normalizeManualRect logicalWidth logicalHeight bodyTop bodyBottom s);
    rewrite IH; reflexivity.
Qed.

Lemma normalizeManualRectSlices_filter
    (logicalWidth logicalHeight bodyTop bodyBottom : Z)
    (l : list (option ManualSlice)) :
  normalizeManualRectSlices logicalWidth logicalHeight bodyTop bodyBottom l
  = normalizeManualRectSlices logicalWidth logicalHeight bodyTop bodyBottom
      (filter (fun s => negb (lacks_rect s)) l).
Proof.
  induction l as [|s l IH]; [reflexivity|].
  cbn [filter]. destruct (lacks_rect s) eqn:E; cbn [negb].
  - cbn [normalizeManualRectSlices].
    rewrite (normalizeManualRect_lacks_rect _ _ _ _ _ E). exact IH.
  - cbn [normalizeManualRectSlices]. rewrite IH. reflexivity.
Qed.

End ManualSlices.

(** ** The effect monad *)

Section Effects.

Lemma bind_ok_inv {A B} (m : M A) (f : A -> M B) (b : B) (t : list Event) :
  bind m f = (Ok b, t) ->
  exists a t1 t2, m = (Ok a, t1) /\ f a = (Ok b, t2) /\ t = t1 ++ t2.
Proof.
  unfold bind. destruct m as [[a|e|] t1]; try discriminate.
  destruct (f a) as [r t2] eqn:E. intros [= -> <-].
  exists a, t1, t2. auto.
Qed.

Lemma bind_ok {A B} (a : A) (t1 : list Event) (f : A -> M B) :
  bind (Ok a, t1) f = (fst (f a), t1 ++ snd (f a)).
Proof. unfold bind. destruct (f a). reflexivity. Qed.

Lemma bind_throw {A B} (e : string) (t1 : list Event) (f : A -> M B) :
  bind (Throw e, t1) f = (Throw e, t1).
Proof. reflexivity. Qed.

Lemma ret_ok_inv {A} (a b : A) (t : list Event) :
  ret a = (Ok b, t) -> a = b /\ t = [].
Proof. unfold ret. intros [= -> <-]. auto. Qed.

End Effects.

(** ** The slice pipeline *)

Section PipelineProps.
Import Js Server.

Variable w : World.
Variable cfg : Config.

Lemma process_slice_ok (a : BuildArgs) (src : Buffer) (sw sh : Z) (i : nat)
    (s : Rect) (r : SliceResult) (t : list Event) :
  process_slice w cfg a src sw sh i s = (Ok r, t) -> slice r = s.
Proof.
  unfold process_slice. intro H.
  apply bind_ok_inv in H. destruct H as (ex & t1 & t2 & _ & H & _).
  apply bind_ok_inv in H. destruct H as (c & t3 & t4 & _ & H & _).
  apply bind_ok_inv in H. destruct H as (u & t5 & t6 & _ & H & _).
  apply ret_ok_inv in H. destruct H as [<- _]. reflexivity.
Qed.

(** A batch that comes back is complete: one result per slice, in order. *)
Lemma process_slices_complete (a : BuildArgs) (src : Buffer) (sw sh : Z)
    (l : list Rect) :
  forall (i : nat) (done : list SliceResult) (t : list Event),
    process_slices w cfg a src sw sh i l = (Ok done, t) ->
    map slice done = l.
Proof.
  induction l as [|s l IH]; intros i done t H.
  - apply ret_ok_inv in H. destruct H as [<- _]. reflexivity.
  - cbn [process_slices] in H.
    apply bind_ok_inv in H. destruct H as (r & t1 & t2 & Hr & H & _).
    apply bind_ok_inv in H. destruct H as (rs & t3 & t4 & Hrs & H & _).
    apply ret_ok_inv in H. destruct H as [<- _].
    cbn [map]. rewrite (process_slice_ok _ _ _ _ _ _ _ _ Hr), (IH _ _ _ Hrs).
    reflexivity.
Qed.

(** The first failing slice ends the loop with its error; the slices
    after it are not touched. *)
Lemma process_slices_abort (a : BuildArgs) (src : Buffer) (sw sh : Z)
    (pre : list Rect) :
  forall (i : nat) (done : list SliceResult) (t1 : list Event)
         (s : Rect) (post : list Rect) (e : string) (t2 : list Event),
    process_slices w cfg a src sw sh i pre = (Ok done, t1) ->
    process_slice w cfg a src sw sh (i + List.length pre) s = (Throw e, t2) ->
    process_slices w cfg a src sw sh i (pre ++ s :: post) = (Throw e, t1 ++ t2).
Proof.
  induction pre as [|p pre IH]; intros i done t1 s post e t2 Hpre Hs.
  - apply ret_ok_inv in Hpre. destruct Hpre as [_ ->].
    cbn [app process_slices List.length] in *. rewrite Nat.add_0_r in Hs.
    rewrite Hs. reflexivity.
  - cbn [app process_slices] in *.
    apply bind_ok_inv in Hpre. destruct Hpre as (r & ta & tb & Hr & H & ->).
    apply bind_ok_inv in H. destruct H as (rs & tc & td & Hrs & H & ->).
    apply ret_ok_inv in H. destruct H as [_ ->].
    rewrite Hr, bind_ok.
    cbn [List.length] in Hs. rewrite <- Nat.add_succ_comm in Hs.
    rewrite (IH _ _ _ _ post _ _ Hrs Hs), bind_throw.
    cbn [fst snd]. rewrite app_nil_r, app_assoc. reflexivity.
Qed.

Lemma choose_slices_silent (a : BuildArgs) (bt bb : Z) :
  trace (choose_slices a bt bb) = [].
Proof.
  unfold choose_slices.
  destruct (manualSlices a).
  - destruct (buildAutoVerticalSlices _ _ _ _); reflexivity.
  - destruct (normalizeManualRectSlices _ _ _ _ _); reflexivity.
Qed.

(** What is left of [buildAndUploadSlices] once the image was read and
    the body region found non-empty. *)
Lemma buildAndUploadSlices_readable (a : BuildArgs) (sw sh : Z) :
  readable w a sw sh ->
  bodyTop_of a < bodyBottom_of a ->
  buildAndUploadSlices w cfg a
  = bind (call EvMetadata (inr (Some sw, Some sh)))
      (fun _ =>
         bind (choose_slices a (bodyTop_of a) (bodyBottom_of a))
           (fun chosen =>
              bind (process_slices w cfg a (Buffer_from_base64 w (sourceBase64 a))
                      sw sh 0 chosen)
                (fun done => ret (mkBuilt done (bodyTop_of a) (bodyBottom_of a))))).
Proof.
  intros (Hm & Hw & Hh) Hbody. unfold buildAndUploadSlices. rewrite Hm.
  unfold call, bind at 1 3. cbn [fst snd dim].
  destruct (sw =? 0) eqn:E1; [apply Z.eqb_eq in E1; contradiction|].
  destruct (sh =? 0) eqn:E2; [apply Z.eqb_eq in E2; contradiction|].
  cbn [orb].
  destruct (bodyBottom_of a <=? bodyTop_of a) eqn:E3; [apply Z.leb_le in E3; lia|].
  reflexivity.
Qed.

Lemma buildAndUploadSlices_empty_body (a : BuildArgs) :
  bodyBottom_of a <= bodyTop_of a ->
  exists message,
    buildAndUploadSlices w cfg a = (Throw message, [EvMetadata])
    /\ forall sw sh, readable w a sw sh -> message = empty_body_error.
Proof.
  intro Hbody. unfold buildAndUploadSlices, readable.
  destruct (sharp_metadata w (Buffer_from_base64 w (sourceBase64 a)))
    as [e | [ow oh]].
  - exists e. split; [reflexivity|]. intros sw sh (H & _). discriminate.
  - unfold call. rewrite bind_ok. cbn [fst snd].
    destruct ((dim ow =? 0) || (dim oh =? 0))%bool eqn:E.
    + eexists. split; [reflexivity|].
      intros sw sh (H & Hw & Hh). injection H as -> ->. cbn [dim] in E.
      apply orb_true_iff in E. destruct E as [E|E]; apply Z.eqb_eq in E; contradiction.
    + apply Z.leb_le in Hbody. rewrite Hbody.
      eexists. split; [reflexivity|]. reflexivity.
Qed.

Lemma outcome_bind_throw {A B} (m : M A) (f : A -> M B) (e : string) :
  fst m = Throw e -> fst (bind m f) = Throw e.
Proof.
  destruct m as [[a|e'|] t]; simpl; try discriminate.
  intros [= ->]. reflexivity.
Qed.

(** A failure of any of the three stages is the failure of the slice. *)
Lemma process_slice_failure (a : BuildArgs) (src : Buffer) (sw sh : Z) (i : nat)
    (s : Rect) (e : string) :
  let er := clampExtractRect s (pixelRatio a) sw sh in
  let run := process_slice w cfg a src sw sh i s in
  (sharp_extract w src er = inl e -> outcome run = Throw e)
  /\ (forall data alpha,
        sharp_extract w src er = inr (data, alpha) ->
        outcome (compressSlice w cfg data alpha) = Throw e ->
        outcome run = Throw e)
  /\ (forall data alpha c t,
        sharp_extract w src er = inr (data, alpha) ->
        compressSlice w cfg data alpha = (Ok c, t) ->
        outcome (uploadImageToKlaviyo w (apiKey a)
                   (batchName a ++ "-slice-" ++ string_of_nat (i + 1))%string
                   (Buffer_toString_base64 w (buf c)) (mime c)) = Throw e ->
        outcome run = Throw e).
Proof.
  intros er run. subst run. unfold process_slice. fold er.
  split; [|split].
  - intros ->. reflexivity.
  - intros data alpha -> Hc. unfold call. rewrite bind_ok. cbn [fst snd outcome].
    rewrite (outcome_bind_throw _ _ _ Hc). reflexivity.
  - intros data alpha c t -> Hc Hu. unfold call. rewrite bind_ok. cbn [fst snd outcome].
    rewrite Hc, bind_ok. cbn [fst].
    rewrite (outcome_bind_throw _ _ _ Hu). reflexivity.
Qed.

Lemma push_build_throws (env : Env) (req : PushRequest)
    (accountId apiKey source e : string) (t : list Event) :
  resolveApiKey env (req_accountId req) = ResolvedOk accountId apiKey source ->
  missing_fields req = false ->
  buildAndUploadSlices w cfg (push_args apiKey (safeBatchName_of req) req)
  = (Throw e, t) ->
  push w cfg env req = (Ok (JsonError 500 (error_text e)), t).
Proof.
  intros Hr Hm Hb. unfold push. rewrite Hr, Hm, Hb, bind_throw.
  unfold try_catch, ret. rewrite app_nil_r. reflexivity.
Qed.

(** C8: when the clamped header and footer bands leave no body
    ([bodyBottom <= bodyTop]) the pipeline throws after reading the image
    dimensions only: no extraction, encode or upload is attempted, and
    with a readable image the error is the empty-body error.  The handler
    then answers with an error, never with a list of slices. *)
Theorem empty_body_is_fatal :
  (forall a : BuildArgs,
     bodyBottom_of a <= bodyTop_of a ->
     exists message,
       outcome (buildAndUploadSlices w cfg a) = Throw message
       /\ no_slice_attempted (trace (buildAndUploadSlices w cfg a))
       /\ forall sw sh, readable w a sw sh -> message = empty_body_error)
  /\ (forall (env : Env) (req : PushRequest),
        bodyBottom_of (push_args "" "" req) <= bodyTop_of (push_args "" "" req) ->
        exists status error,
          outcome (push w cfg env req) = Ok (JsonError status error)
          /\ no_slice_attempted (trace (push w cfg env req))).
Proof.
  split.
  - intros a Hbody.
    destruct (buildAndUploadSlices_empty_body a Hbody) as (m & Hm & Hr).
    exists m. rewrite Hm. split; [reflexivity | split; [reflexivity | exact Hr]].
  - intros env req Hbody. unfold push.
    destruct (resolveApiKey env (req_accountId req)) as [id key src | err].
    + destruct (missing_fields req).
      * exists 400, missing_fields_error. split; reflexivity.
      * assert (Hb : bodyBottom_of (push_args key (safeBatchName_of req) req)
                     <= bodyTop_of (push_args key (safeBatchName_of req) req))
          by exact Hbody.
        destruct (buildAndUploadSlices_empty_body _ Hb) as (m & Hm & _).
        rewrite Hm, bind_throw. exists 500, (error_text m). split; reflexivity.
    + exists 500, err. split; reflexivity.
Qed.

(** C4: a slice whose extraction, compression or upload throws ends the
    batch.  A throw of any of the three stages is a throw of the slice.
    The loop stops at the first failing slice with that slice's
    error and leaves the later slices untouched; the pipeline throws the
    same error; the handler answers with the one error message and status
    500.  A list of results is returned only when every slice succeeded,
    with one result per slice. *)
Theorem slice_failure_aborts_batch :
  (forall a src sw sh i s e,
     let er := clampExtractRect s (pixelRatio a) sw sh in
     let run := process_slice w cfg a src sw sh i s in
     (sharp_extract w src er = inl e -> outcome run = Throw e)
     /\ (forall data alpha,
           sharp_extract w src er = inr (data, alpha) ->
           outcome (compressSlice w cfg data alpha) = Throw e ->
           outcome run = Throw e)
     /\ (forall data alpha c t,
           sharp_extract w src er = inr (data, alpha) ->
           compressSlice w cfg data alpha = (Ok c, t) ->
           outcome (uploadImageToKlaviyo w (apiKey a)
                      (batchName a ++ "-slice-" ++ string_of_nat (i + 1))%string
                      (Buffer_toString_base64 w (buf c)) (mime c)) = Throw e ->
           outcome run = Throw e))
  /\ (forall a src sw sh pre done t1 s post e t2,
     process_slices w cfg a src sw sh 0 pre = (Ok done, t1) ->
     process_slice w cfg a src sw sh (List.length pre) s = (Throw e, t2) ->
     process_slices w cfg a src sw sh 0 (pre ++ s :: post) = (Throw e, t1 ++ t2))
  /\ (forall a sw sh chosen e t,
        readable w a sw sh ->
        bodyTop_of a < bodyBottom_of a ->
        choose_slices a (bodyTop_of a) (bodyBottom_of a) = (Ok chosen, []) ->
        process_slices w cfg a (Buffer_from_base64 w (sourceBase64 a)) sw sh 0 chosen
        = (Throw e, t) ->
        buildAndUploadSlices w cfg a = (Throw e, EvMetadata :: t))
  /\ (forall env req accountId apiKey source e t,
        resolveApiKey env (req_accountId req) = ResolvedOk accountId apiKey source ->
        missing_fields req = false ->
        buildAndUploadSlices w cfg (push_args apiKey (safeBatchName_of req) req)
        = (Throw e, t) ->
        push w cfg env req = (Ok (JsonError 500 (error_text e)), t))
  /\ (forall a built t,
        buildAndUploadSlices w cfg a = (Ok built, t) ->
        exists chosen,
          outcome (choose_slices a (bodyTop_of a) (bodyBottom_of a)) = Ok chosen
          /\ map slice (slices built) = chosen).
Proof.
  split; [|split; [|split; [|split]]].
  - intros a src sw sh i s e. apply process_slice_failure.
  - intros a src sw sh pre done t1 s post e t2 Hpre Hs.
    apply (process_slices_abort a src sw sh pre 0%nat done t1 s post e t2 Hpre Hs).
  - intros a sw sh chosen e t Hread Hbody Hc Hp.
    rewrite (buildAndUploadSlices_readable a sw sh Hread Hbody).
    unfold call. rewrite bind_ok, Hc, bind_ok, Hp, bind_throw. reflexivity.
  - apply push_build_throws.
  - intros a built t H. unfold buildAndUploadSlices in H.
    apply bind_ok_inv in H. destruct H as (meta & t1 & t2 & _ & H & _).
    destruct ((dim (fst meta) =? 0) || (dim (snd meta) =? 0))%bool; [discriminate|].
    destruct (bodyBottom_of a <=? bodyTop_of a); [discriminate|].
    apply bind_ok_inv in H. destruct H as (chosen & t3 & t4 & Hc & H & _).
    apply bind_ok_inv in H. destruct H as (done & t5 & t6 & Hd & H & _).
    apply ret_ok_inv in H. destruct H as [<- _].
    exists chosen. rewrite Hc. split; [reflexivity|].
    cbn [slices]. exact (process_slices_complete _ _ _ _ _ _ _ _ Hd).
Qed.

(** ** The quality search *)

Lemma quality_steps_shift (q : Z) (n : nat) :
  map (fun k => EvJpeg (q - 5 - 5 * Z.of_nat (S k))) (seq 0 n)
  = map (fun k => EvJpeg (q - 5 * Z.of_nat (S k))) (seq 1 n).
Proof.
  rewrite <- seq_shift, map_map. apply map_ext. intro k. f_equal. lia.
Qed.

(** The loop from quality [q], whose encode [best] is at hand: it makes
    [n] passes, each 5 below the one before, every pass but possibly the
    last starts over the target and above the floor, and it exits when
    the test fails. *)
Lemma quality_loop_spec (src : Buffer) :
  forall (fuel : nat) (q : Z) (best : Buffer),
    (Z.to_nat (q - minJpegQuality cfg) <= fuel)%nat ->
    let run := quality_loop w cfg fuel src (targetBytes_of cfg) q best in
    exists n : nat,
      trace run = map (fun k => EvJpeg (q - 5 * Z.of_nat (S k))) (seq 0 n)
      /\ outcome run <> Diverged
      /\ (n <> 0%nat -> minJpegQuality cfg < q - 5 * (Z.of_nat n - 1))
      /\ (n <> 0%nat -> keep_searching cfg (targetBytes_of cfg) q best = true)
      /\ (forall k, (0 < k < n)%nat ->
            exists b, sharp_jpeg w src (q - 5 * Z.of_nat k) = inr b
                      /\ keep_searching cfg (targetBytes_of cfg) (q - 5 * Z.of_nat k) b = true)
      /\ (forall q' b', outcome run = Ok (q', b') ->
            q' = q - 5 * Z.of_nat n
            /\ keep_searching cfg (targetBytes_of cfg) q' b' = false
            /\ (n = 0%nat -> b' = best)
            /\ (n <> 0%nat -> sharp_jpeg w src q' = inr b')).
Proof.
  induction fuel as [|fuel IH]; intros q best Hfuel run; subst run;
    cbn [quality_loop]; destruct (keep_searching cfg (targetBytes_of cfg) q best) eqn:Ek.
  - exfalso. unfold keep_searching in Ek. apply andb_true_iff in Ek.
    destruct Ek as [_ Ek]. apply Z.ltb_lt in Ek. lia.
  - exists 0%nat. unfold ret, trace, outcome. cbn [seq map fst snd].
    split; [reflexivity|]. split; [discriminate|].
    split; [congruence|]. split; [congruence|].
    split; [intros k Hk; lia|].
    intros q' b' [= <- <-].
    split; [lia|]. split; [exact Ek|]. split; [reflexivity | congruence].
  - assert (Hq : minJpegQuality cfg < q).
    { unfold keep_searching in Ek. apply andb_true_iff in Ek.
      destruct Ek as [_ Ek]. apply Z.ltb_lt in Ek. exact Ek. }
    destruct (sharp_jpeg w src (q - 5)) as [e|b] eqn:Ej; unfold call.
    + exists 1%nat. rewrite bind_throw. unfold trace, outcome. cbn [seq map fst snd].
      replace (q - 5 * Z.of_nat 1) with (q - 5) by lia.
      split; [reflexivity|]. split; [discriminate|].
      split; [intros _; lia|]. split; [reflexivity|].
      split; [intros k Hk; lia|].
      intros q' b' H. discriminate H.
    + rewrite bind_ok.
      destruct (IH (q - 5) b ltac:(lia)) as (n & Ht & Hd & Hlast & Hfirst & Hmid & Hok).
      exists (S n). unfold trace, outcome in *. cbn [fst snd] in *.
      split; [|split; [|split; [|split; [|split]]]].
      * rewrite Ht. cbn [seq map app].
        replace (q - 5 * Z.of_nat 1) with (q - 5) by lia.
        f_equal. apply quality_steps_shift.
      * exact Hd.
      * intros _. destruct n as [|n]; [lia|].
        specialize (Hlast ltac:(discriminate)). lia.
      * intros _. reflexivity.
      * intros k Hk. destruct (Nat.eq_dec k 1) as [->|Hk1].
        -- exists b. replace (q - 5 * Z.of_nat 1) with (q - 5) by lia.
           split; [exact Ej|]. apply Hfirst. lia.
        -- destruct (Hmid (k - 1)%nat ltac:(lia)) as (b0 & Hb0 & Hk0).
           exists b0. replace (q - 5 * Z.of_nat k) with (q - 5 - 5 * Z.of_nat (k - 1)) by lia.
           auto.
      * intros q' b' Hr. destruct (Hok q' b' Hr) as (Hq' & Hstop & Hz & Hnz).
        split; [lia|]. split; [exact Hstop|]. split; [discriminate|].
        intros _. destruct n as [|n].
        -- rewrite (Hz eq_refl). replace q' with (q - 5) by lia. exact Ej.
        -- apply Hnz. discriminate.
  - exists 0%nat. unfold ret, trace, outcome. cbn [seq map fst snd].
    split; [reflexivity|]. split; [discriminate|].
    split; [congruence|]. split; [congruence|].
    split; [intros k Hk; lia|].
    intros q' b' [= <- <-].
    split; [lia|]. split; [exact Ek|]. split; [reflexivity | congruence].
Qed.

Lemma quality_steps_from_default (d : Z) (n : nat) :
  EvJpeg d :: map (fun k => EvJpeg (d - 5 * Z.of_nat (S k))) (seq 0 n)
  = map (fun k => EvJpeg (d - 5 * Z.of_nat k)) (seq 0 (S n)).
Proof.
  cbn [seq map]. f_equal.
  - f_equal. lia.
  - rewrite <- seq_shift, map_map. reflexivity.
Qed.

Lemma passes_bound (d f : Z) (n : nat) :
  (n <> 0%nat -> f < d - 5 * (Z.of_nat n - 1)) ->
  Z.of_nat (S n) <= Z.max 0 ((d - f + 4) / 5) + 1
  /\ (f <= d -> (d - f) mod 5 = 0 -> Z.of_nat (S n) <= (d - f) / 5 + 1)
  /\ (f < d -> (d - f) mod 5 <> 0 -> Z.of_nat (S n) <= (d - f) / 5 + 2)
  /\ (d <= f -> n = 0%nat).
Proof.
  intro Hlast.
  pose proof (Z.div_mod (d - f) 5 ltac:(lia)) as Hdm.
  pose proof (Z.mod_pos_bound (d - f) 5 ltac:(lia)) as Hm.
  pose proof (Z.div_mod (d - f + 4) 5 ltac:(lia)) as Hdm4.
  pose proof (Z.mod_pos_bound (d - f + 4) 5 ltac:(lia)) as Hm4.
  set (m := (d - f) / 5) in *. set (r := (d - f) mod 5) in *.
  set (m4 := (d - f + 4) / 5) in *. set (r4 := (d - f + 4) mod 5) in *.
  destruct n as [|n].
  - split; [lia|]. split; [lia|]. split; [lia|]. reflexivity.
  - specialize (Hlast ltac:(discriminate)).
    split; [lia|]. split; [lia|]. split; lia.
Qed.

Lemma keep_searching_true (q : Z) (best : Buffer) :
  keep_searching cfg (targetBytes_of cfg) q best = true ->
  (targetBytes_of cfg < inject_Z (Buffer_length best))%Q /\ minJpegQuality cfg < q.
Proof.
  unfold keep_searching. intro H. apply andb_true_iff in H. destruct H as [Hs Hq].
  split; [|apply Z.ltb_lt; exact Hq].
  apply negb_true_iff in Hs. apply Qnot_le_lt. intro Hle.
  apply Qle_bool_iff in Hle. congruence.
Qed.

Lemma keep_searching_stop (q : Z) (best : Buffer) :
  keep_searching cfg (targetBytes_of cfg) q best = false ->
  (inject_Z (Buffer_length best) <= targetBytes_of cfg)%Q \/ q <= minJpegQuality cfg.
Proof.
  unfold keep_searching. intro H. apply andb_false_iff in H. destruct H as [H|H].
  - left. apply negb_false_iff in H. apply Qle_bool_iff. exact H.
  - right. apply Z.ltb_ge. exact H.
Qed.

Lemma encodes_steps (d : Z) (n : nat) :
  encodes (map (fun k => EvJpeg (d - 5 * Z.of_nat k)) (seq 0 n)) = n.
Proof.
  unfold encodes. generalize 0%nat as s.
  induction n as [|n IH]; intro s; [reflexivity|].
  cbn [seq map]. cbn [jpeg_qualities jpeg_quality_of]. cbn [List.length].
  f_equal. apply IH.
Qed.

(** C6 (amended): on an opaque region the quality search terminates.
    With integer default and floor qualities it asks the codec for
    [n + 1] encodes, at the default quality and then each 5 below the one
    before; their number is at most
    [max 0 (ceil ((default - floor) / 5)) + 1], which is
    [(default - floor) / 5 + 1] when the floor is a multiple of 5 below
    the default (80 and 60 by default), one more than that, the division
    truncated, when the floor is below the default by another amount, and
    a single encode when the floor is not below the default.  Every
    encode but the last is larger than the byte target and has a quality
    above the floor, and an encode that ends the search is at or under the
    target or has a quality that is not above the floor: the search stops
    at the first such encode. *)
Theorem compressSlice_quality_search_bounded (sliceBuffer : Buffer) :
  let d := defaultJpegQuality cfg in
  let f := minJpegQuality cfg in
  let run := compressSlice w cfg sliceBuffer false in
  exists n : nat,
    outcome run <> Diverged
    /\ trace run = map (fun k => EvJpeg (d - 5 * Z.of_nat k)) (seq 0 (S n))
    /\ encodes (trace run) = S n
    /\ Z.of_nat (S n) <= Z.max 0 ((d - f + 4) / 5) + 1
    /\ (f <= d -> (d - f) mod 5 = 0 -> Z.of_nat (S n) <= (d - f) / 5 + 1)
    /\ (f < d -> (d - f) mod 5 <> 0 -> Z.of_nat (S n) <= (d - f) / 5 + 2)
    /\ (d <= f -> n = 0%nat)
    /\ (forall k, (k < n)%nat ->
          exists b, sharp_jpeg w sliceBuffer (d - 5 * Z.of_nat k) = inr b
                    /\ (targetBytes_of cfg < inject_Z (Buffer_length b))%Q
                    /\ f < d - 5 * Z.of_nat k)
    /\ (forall c, outcome run = Ok c ->
          quality c = Some (d - 5 * Z.of_nat n)
          /\ sharp_jpeg w sliceBuffer (d - 5 * Z.of_nat n) = inr (buf c)
          /\ ((inject_Z (Buffer_length (buf c)) <= targetBytes_of cfg)%Q
              \/ d - 5 * Z.of_nat n <= f)).
Proof.
  intros d f run. subst run. unfold compressSlice. fold d. fold f.
  destruct (sharp_jpeg w sliceBuffer d) as [e|best] eqn:Ej; unfold call.
  - exists 0%nat. rewrite bind_throw. unfold trace, outcome. cbn [seq map fst snd].
    replace (d - 5 * Z.of_nat 0) with d by lia.
    destruct (passes_bound d f 0 ltac:(intro H; exfalso; apply H; reflexivity))
      as (Hb1 & Hb2 & Hb3 & Hb4).
    split; [discriminate|]. split; [reflexivity|]. split; [reflexivity|].
    split; [exact Hb1|]. split; [exact Hb2|]. split; [exact Hb3|]. split; [exact Hb4|].
    split; [intros k Hk; lia|]. intros c H. discriminate H.
  - rewrite bind_ok.
    destruct (quality_loop_spec sliceBuffer (Z.to_nat (d - f)) d best (Nat.le_refl _))
      as (n & Ht & Hd & Hlast & Hfirst & Hmid & Hok).
    fold (targetBytes_of cfg).
    assert (Hbefore : forall k, (k < n)%nat ->
              exists b, sharp_jpeg w sliceBuffer (d - 5 * Z.of_nat k) = inr b
                        /\ (targetBytes_of cfg < inject_Z (Buffer_length b))%Q
                        /\ f < d - 5 * Z.of_nat k).
    { intros k Hk. destruct k as [|k].
      - exists best. replace (d - 5 * Z.of_nat 0) with d by lia.
        split; [exact Ej|]. apply keep_searching_true. apply Hfirst. lia.
      - destruct (Hmid (S k) ltac:(lia)) as (b & Hb & Hkeep).
        exists b. split; [exact Hb|]. apply keep_searching_true. exact Hkeep. }
    destruct (passes_bound d f n Hlast) as (Hb1 & Hb2 & Hb3 & Hb4).
    destruct (quality_loop w cfg (Z.to_nat (d - f)) sliceBuffer (targetBytes_of cfg) d best)
      as [[[q' b']|e|] tl] eqn:El;
      unfold trace, outcome in *; cbn [fst snd] in *; [| |congruence].
    + exists n. rewrite bind_ok. unfold ret. cbn [fst snd].
      rewrite app_nil_r, Ht. cbn [app].
      destruct (Hok q' b' eq_refl) as (Hq' & Hstop & Hz & Hnz).
      rewrite quality_steps_from_default.
      split; [discriminate|]. split; [reflexivity|].
      split; [apply encodes_steps|].
      split; [exact Hb1|]. split; [exact Hb2|]. split; [exact Hb3|]. split; [exact Hb4|].
      split; [exact Hbefore|].
      intros c [= <-]. cbn [quality buf]. rewrite <- Hq'.
      split; [reflexivity|]. split; [|apply keep_searching_stop; exact Hstop].
      destruct n as [|n].
      * rewrite (Hz eq_refl). replace q' with d by lia. exact Ej.
      * apply Hnz. discriminate.
    + exists n. rewrite bind_throw. cbn [fst snd].
      rewrite Ht. cbn [app]. rewrite quality_steps_from_default.
      split; [discriminate|]. split; [reflexivity|].
      split; [apply encodes_steps|].
      split; [exact Hb1|]. split; [exact Hb2|]. split; [exact Hb3|]. split; [exact Hb4|].
      split; [exact Hbefore|].
      intros c H. discriminate H.
Qed.

End PipelineProps.

(** ** Spans *)

Section Spans.

Lemma stacked_lower (hi lo lo' : Z) (l : list span) :
  stacked hi lo l -> lo' <= lo -> stacked hi lo' l.
Proof.
  intros H Hle. destruct H.
  - constructor.
  - constructor; try assumption. lia.
Qed.

Lemma stacked_app (mid hi : Z) (l1 l2 : list span) :
  forall lo,
    lo <= mid -> stacked mid lo l1 -> stacked hi mid l2 -> mid <= hi ->
    stacked hi lo (l1 ++ l2).
Proof.
  induction l1 as [|sp l1 IH]; intros lo Hlo H1 H2 Hle.
  - cbn [app]. apply (stacked_lower hi mid lo l2 H2 Hlo).
  - inversion H1 as [|lo0 top0 h0 rest0 Hlo0 Hh0 Hhi0 Hrest0]; subst. cbn [app]. constructor; try assumption; [lia|].
    apply IH; assumption.
Qed.

Lemma stacked_Forall (hi : Z) (l : list span) :
  forall lo,
    stacked hi lo l ->
    Forall (fun sp => lo <= fst sp /\ 0 < snd sp /\ fst sp + snd sp <= hi) l.
Proof.
  induction l as [|[top h] l IH]; intros lo H; [constructor|].
  inversion H as [|lo0 top0 h0 rest0 Hlo Hh Hhi Hrest]; subst.
  constructor; [cbn [fst snd]; lia|].
  eapply Forall_impl; [|exact (IH _ Hrest)].
  intros sp (H1 & H2 & H3). lia.
Qed.

Lemma tiled_stacked (hi : Z) (l : list span) :
  forall lo, tiled hi lo l -> stacked hi lo l.
Proof.
  induction l as [|sp l IH]; intros lo H.
  - constructor.
  - inversion H as [|lo0 h0 rest0 Hh0 Hhi0 Hrest0]; subst.
    constructor; try assumption; [lia | auto].
Qed.





End Spans.

(** ** Interval merge and split *)

Section Intervals.
Import Js Plugin.

Lemma insert_by_start_Forall (P : Interval -> Prop) (iv : Interval) (l : list Interval) :
  P iv -> Forall P l -> Forall P (insert_by_start iv l).
Proof.
  intros Hiv Hl. induction Hl as [|h t Hh Ht IH]; cbn [insert_by_start].
  - constructor; [assumption | constructor].
  - destruct (start iv <=? start h).
    + constructor; [assumption|]. constructor; assumption.
    + constructor; assumption.
Qed.

Lemma insert_by_start_sorted (iv : Interval) (l : list Interval) :
  StronglySorted by_start l -> StronglySorted by_start (insert_by_start iv l).
Proof.
  intro Hl. induction Hl as [|h t Ht IH Hh]; cbn [insert_by_start].
  - constructor; constructor.
  - destruct (start iv <=? start h) eqn:E.
    + apply Z.leb_le in E. constructor.
      * constructor; assumption.
      * constructor; [exact E|].
        eapply Forall_impl; [|exact Hh]. unfold by_start. intros a Ha. lia.
    + apply Z.leb_gt in E. constructor; [exact IH|].
      apply insert_by_start_Forall; [unfold by_start; lia | exact Hh].
Qed.

Lemma sort_by_start_Forall (P : Interval -> Prop) (l : list Interval) :
  Forall P l -> Forall P (sort_by_start l).
Proof.
  intro H. induction H as [|h t Hh Ht IH]; cbn [sort_by_start fold_right].
  - constructor.
  - apply insert_by_start_Forall; assumption.
Qed.

Lemma sort_by_start_sorted (l : list Interval) :
  StronglySorted by_start (sort_by_start l).
Proof.
  induction l as [|h t IH]; cbn [sort_by_start fold_right].
  - constructor.
  - apply insert_by_start_sorted. exact IH.
Qed.

(** The merge of a sorted run: what comes out is in order and disjoint. *)
Lemma merge_loop_separated (joinGap hi : Z) :
  0 <= joinGap ->
  forall (rest : list Interval) (prev : Interval) (lo : Z),
    lo <= start prev -> start prev < end_ prev -> end_ prev <= hi ->
    Forall (fun c => start c < end_ c /\ end_ c <= hi) rest ->
    Forall (by_start prev) rest ->
    StronglySorted by_start rest ->
    separated hi lo (merge_loop joinGap prev rest).
Proof.
  intros Hgap. induction rest as [|cur rest IH];
    intros prev lo Hlo Hne Hhi Hvalid Hfrom Hsorted; cbn [merge_loop].
  - constructor; try assumption. constructor.
  - inversion Hvalid as [|c0 r0 [Hc1 Hc2] Hvalid']; subst.
    inversion Hfrom as [|c1 r1 Hpc Hfrom']; subst.
    inversion Hsorted as [|c2 r2 Hsorted' Hcur]; subst.
    unfold by_start in Hpc.
    destruct (start cur <=? end_ prev + joinGap) eqn:E.
    + apply IH; cbn [start end_]; try assumption; try lia.
    + apply Z.leb_gt in E. constructor; try assumption.
      apply IH; try assumption; lia.
Qed.

Lemma mergeIntervals_separated (joinGap lo hi : Z) (intervals : list Interval) :
  0 <= joinGap ->
  Forall (interval_within lo hi) intervals ->
  separated hi lo (mergeIntervals intervals joinGap).
Proof.
  intros Hgap Hall. unfold mergeIntervals.
  pose proof (sort_by_start_Forall _ _ Hall) as Hs.
  pose proof (sort_by_start_sorted intervals) as Hsorted.
  destruct (sort_by_start intervals) as [|first rest]; [constructor|].
  inversion Hs as [|f0 r0 (H1 & H2 & H3) Hrest]; subst.
  inversion Hsorted as [|f1 r1 Hsorted' Hfirst]; subst.
  apply merge_loop_separated; try assumption.
  eapply Forall_impl; [|exact Hrest].
  intros a (Ha1 & Ha2 & Ha3). auto.
Qed.

Lemma merge_loop_head (joinGap : Z) (rest : list Interval) :
  forall prev,
    exists e l,
      merge_loop joinGap prev rest = mkInterval (start prev) e :: l
      /\ end_ prev <= e.
Proof.
  induction rest as [|cur rest IH]; intro prev; cbn [merge_loop].
  - exists (end_ prev), []. destruct prev. split; [reflexivity | cbn; lia].
  - destruct (start cur <=? end_ prev + joinGap).
    + destruct (IH (mkInterval (start prev) (Z.max (end_ prev) (end_ cur))))
        as (e & l & Hm & He).
      cbn [start end_] in *. exists e, l. split; [exact Hm | lia].
    + exists (end_ prev), (merge_loop joinGap cur rest).
      destruct prev. split; [reflexivity | cbn; lia].
Qed.

Lemma merge_loop_apart (joinGap : Z) (rest : list Interval) :
  forall prev, apart joinGap (merge_loop joinGap prev rest).
Proof.
  induction rest as [|cur rest IH]; intro prev; cbn [merge_loop].
  - constructor.
  - destruct (start cur <=? end_ prev + joinGap) eqn:E; [apply IH|].
    apply Z.leb_gt in E.
    destruct (merge_loop_head joinGap rest cur) as (e & l & Hm & He).
    specialize (IH cur). rewrite Hm in *.
    constructor; [cbn [start]; exact E | exact IH].
Qed.

(** The split of an interval with a positive maximum: the loop exits
    within its fuel, the chunks tile the interval, none is taller than the
    maximum and all but the last have exactly that height. *)
Lemma split_loop_tiled (stop maxH : Z) :
  0 < maxH ->
  forall (fuel : nat) (y : Z),
    (Z.to_nat (stop - y) <= fuel)%nat ->
    exists chunks,
      split_loop fuel stop maxH y = Some chunks
      /\ tiled stop y (map interval_span chunks)
      /\ Forall (fun c => end_ c - start c <= maxH) chunks
      /\ (forall pre c post,
            chunks = pre ++ c :: post -> post <> [] -> end_ c - start c = maxH)
      /\ (stop <= y -> chunks = [])
      /\ (y < stop -> chunks <> []).
Proof.
  intros Hmax. induction fuel as [|fuel IH]; intros y Hfuel;
    cbn [split_loop]; destruct (y <? stop) eqn:E.
  - apply Z.ltb_lt in E. lia.
  - apply Z.ltb_ge in E. exists []. cbn [map].
    split; [reflexivity|]. split; [constructor; exact E|]. split; [constructor|].
    split; [intros pre c post H; destruct pre; discriminate H|].
    split; [reflexivity | lia].
  - apply Z.ltb_lt in E. set (h := Z.min maxH (stop - y)).
    assert (Hh : 0 < h <= maxH /\ y + h <= stop) by (unfold h; lia).
    destruct (IH (y + h) ltac:(lia)) as (chunks & Hs & Ht & Hle & Hfull & Hnil & Hne).
    rewrite Hs. cbn [option_map].
    exists (mkInterval y (y + h) :: chunks).
    split; [reflexivity|]. split; [|split; [|split; [|split]]].
    + cbn [map]. unfold interval_span at 1. cbn [start end_].
      replace (y + h - y) with h by lia.
      constructor; [lia | lia | exact Ht].
    + constructor; [cbn [start end_]; lia | exact Hle].
    + intros pre c post Heq Hpost. destruct pre as [|p pre].
      * cbn [app] in Heq. injection Heq as <- <-. cbn [start end_].
        assert (y + h < stop) by (destruct (Z_lt_le_dec (y + h) stop) as [|Hge];
                                  [assumption | specialize (Hnil Hge); congruence]).
        unfold h in *. lia.
      * cbn [app] in Heq. injection Heq as _ ->. eapply Hfull; [reflexivity | exact Hpost].
    + lia.
    + discriminate.
  - apply Z.ltb_ge in E. exists []. cbn [map].
    split; [reflexivity|]. split; [constructor; exact E|]. split; [constructor|].
    split; [intros pre c post H; destruct pre; discriminate H|].
    split; [reflexivity | lia].
Qed.

Lemma splitByMaxHeight_tiled (iv : Interval) (maxH : Z) :
  0 < maxH ->
  exists chunks,
    splitByMaxHeight iv maxH = Some chunks
    /\ tiled (end_ iv) (start iv) (map interval_span chunks)
    /\ Forall (fun c => end_ c - start c <= maxH) chunks
    /\ (forall pre c post,
          chunks = pre ++ c :: post -> post <> [] -> end_ c - start c = maxH).
Proof.
  intro Hmax. unfold splitByMaxHeight.
  destruct (split_loop_tiled (end_ iv) maxH Hmax
              (Z.to_nat (end_ iv - start iv)) (start iv) (Nat.le_refl _))
    as (chunks & Hs & Ht & Hle & Hfull & _).
  exists chunks. auto.
Qed.

End Intervals.

(** ** The suggester *)

Section Suggester.
Import Js Plugin.

Lemma chunk_slices_stacked (frameWidth maxH stop : Z) (chunks : list Interval) :
  forall y,
    tiled stop y (map interval_span chunks) ->
    Forall (fun c => end_ c - start c <= maxH) chunks ->
    stacked stop y (map plugin_span (chunk_slices frameWidth chunks))
    /\ Forall (fun s => 0 < height (rect s) <= maxH) (chunk_slices frameWidth chunks).
Proof.
  induction chunks as [|c chunks IH]; intros y Ht Hle.
  - cbn. split; constructor.
  - cbn [map chunk_slices] in *.
    inversion Hle as [|c0 l0 Hc Hle']; subst.
    unfold interval_span at 1 in Ht.
    inversion Ht as [|lo0 h0 rest0 Hh0 Hhi0 Hrest0]; subst.
    destruct (IH _ Hrest0 Hle') as [Hst Hall].
    destruct (end_ c - start c <? 8) eqn:E.
    + split; [|exact Hall]. apply (stacked_lower _ _ _ _ Hst). lia.
    + apply Z.ltb_ge in E. cbn [map]. split.
      * unfold plugin_span at 1. cbn [full_width_slice rect y height].
        constructor; [lia | lia | lia | exact Hst].
      * constructor; [cbn [full_width_slice rect height]; lia | exact Hall].
Qed.

Lemma merged_slices_stacked (frameWidth maxH hi : Z) (merged : list Interval) :
  0 < maxH ->
  forall lo,
    separated hi lo merged ->
    exists slices,
      merged_slices frameWidth maxH merged = Some slices
      /\ stacked hi lo (map plugin_span slices)
      /\ Forall (fun s => 0 < height (rect s) <= maxH) slices.
Proof.
  intro Hmax. induction merged as [|m merged IH]; intros lo Hsep.
  - exists []. cbn. split; [reflexivity|]. split; constructor.
  - inversion Hsep as [|lo0 iv0 rest0 Hlo Hne Hhi Hrest]; subst.
    cbn [merged_slices].
    destruct (splitByMaxHeight_tiled m maxH Hmax) as (chunks & Hs & Ht & Hle & _).
    destruct (IH _ Hrest) as (slices & Hm & Hst & Hall).
    destruct (chunk_slices_stacked frameWidth maxH _ chunks _ Ht Hle) as [Hcs Hca].
    rewrite Hs, Hm. cbn [option_map]. eexists. split; [reflexivity|]. split.
    + rewrite map_app. apply (stacked_lower hi (start m)); [|exact Hlo].
      apply (stacked_app (end_ m)); [lia | exact Hcs | exact Hst | exact Hhi].
    + apply Forall_app. split; assumption.
Qed.

Lemma fallback_loop_tiled (frameWidth bodyBottom maxH : Z) :
  0 < maxH ->
  forall (fuel : nat) (y : Z),
    (Z.to_nat (bodyBottom - y) <= fuel)%nat ->
    exists slices,
      fallback_loop fuel frameWidth bodyBottom maxH y = Some slices
      /\ tiled bodyBottom y (map plugin_span slices)
      /\ Forall (fun s => 0 < height (rect s) <= maxH) slices
      /\ (y < bodyBottom -> slices <> []).
Proof.
  intros Hmax. induction fuel as [|fuel IH]; intros y Hfuel;
    cbn [fallback_loop]; destruct (y <? bodyBottom) eqn:E.
  - apply Z.ltb_lt in E. lia.
  - apply Z.ltb_ge in E. exists []. cbn [map].
    split; [reflexivity|]. split; [constructor; exact E|]. split; [constructor | lia].
  - apply Z.ltb_lt in E. set (h := Z.min maxH (bodyBottom - y)).
    assert (Hh : 0 < h <= maxH /\ y + h <= bodyBottom) by (unfold h; lia).
    destruct (IH (y + h) ltac:(lia)) as (slices & Hs & Ht & Hall & _).
    rewrite Hs. cbn [option_map]. eexists. split; [reflexivity|].
    split; [|split; [|discriminate]].
    + cbn [map]. unfold plugin_span at 1. cbn [full_width_slice rect Plugin.y height].
      constructor; [lia | lia | exact Ht].
    + constructor; [cbn [full_width_slice rect height]; lia | exact Hall].
  - apply Z.ltb_ge in E. exists []. cbn [map].
    split; [reflexivity|]. split; [constructor; exact E|]. split; [constructor | lia].
Qed.

Lemma child_intervals_within
    (frame_y : Q) (bodyTop bodyBottom minSectionHeight minWidth : Z)
    (children : list (option SceneNode)) :
  bodyTop <= bodyBottom -> 0 < minSectionHeight ->
  Forall (interval_within bodyTop bodyBottom)
    (child_intervals frame_y bodyTop bodyBottom minSectionHeight minWidth children).
Proof.
  intros Hbody Hmin. induction children as [|child rest IH]; cbn [child_intervals].
  - constructor.
  - destruct (child_interval frame_y bodyTop bodyBottom minSectionHeight minWidth child)
      as [iv|] eqn:E; [|exact IH].
    constructor; [|exact IH].
    unfold child_interval in E.
    destruct child as [child|]; [|discriminate].
    destruct (negb (visible child)); [discriminate|].
    destruct (getBounds (absoluteBoundingBox child)) as [b|]; [|discriminate].
    destruct (Math_round (bounds_width b) <? minWidth); [discriminate|].
    destruct (Math_round (bounds_height b) <? minSectionHeight); [discriminate|].
    match type of E with
    | (if ?c then _ else _) = _ => destruct c eqn:Ec; [discriminate|]
    end.
    injection E as <-. apply Z.ltb_ge in Ec.
    unfold interval_within. cbn [start end_].
    pose proof (plugin_clamp_bounds (Math_round (bounds_y b - frame_y))
                  bodyTop bodyBottom Hbody).
    pose proof (plugin_clamp_bounds
                  (Math_round (bounds_y b - frame_y) + Math_round (bounds_height b))
                  bodyTop bodyBottom Hbody).
    lia.
Qed.

(** The suggester on a frame with a bounding box and a non-empty body:
    it returns, at least one rectangle, the rectangles are stacked inside
    the body and none is taller than the maximum. *)
Lemma suggestSlices_stacked (frameNode : FrameNode) (opts : Opts) :
  frame_bounds frameNode <> None ->
  bodyTop_of frameNode opts < bodyBottom_of frameNode opts ->
  exists slices,
    suggestSlices frameNode opts = Some slices
    /\ slices <> []
    /\ stacked (bodyBottom_of frameNode opts) (bodyTop_of frameNode opts)
         (map plugin_span slices)
    /\ Forall (fun s => 0 < height (rect s) <= maxSliceHeight_of opts) slices.
Proof.
  intros Hb Hbody. unfold suggestSlices, getBounds.
  destruct (frame_bounds frameNode) as [frameBounds|]; [|congruence].
  fold (frameHeight_of frameNode). fold (bodyTop_of frameNode opts).
  fold (bodyBottom_of frameNode opts). fold (maxSliceHeight_of opts).
  set (bt := bodyTop_of frameNode opts) in *.
  set (bb := bodyBottom_of frameNode opts) in *.
  set (maxH := maxSliceHeight_of opts).
  assert (Hmax : 0 < maxH) by (unfold maxH, maxSliceHeight_of; lia).
  destruct (bb <=? bt) eqn:E; [apply Z.leb_le in E; lia|].
  set (minSection := Z.max 40 _). set (minW := Z.max 120 _). set (gap := Z.max 12 _).
  set (found := match children frameNode with
                | Some children =>
                    child_intervals (bounds_y frameBounds) bt bb minSection minW children
                | None => []
                end).
  assert (Hfound : Forall (interval_within bt bb) found).
  { unfold found. destruct (children frameNode); [|constructor].
    apply child_intervals_within; [lia | unfold minSection; lia]. }
  set (intervals := match found with
                    | [] => [mkInterval bt bb]
                    | _ => found
                    end).
  assert (Hint : Forall (interval_within bt bb) intervals /\ intervals <> []).
  { unfold intervals. destruct found as [|iv0 l0].
    - split; [|discriminate]. constructor; [|constructor].
      unfold interval_within. cbn [start end_]. lia.
    - split; [exact Hfound | discriminate]. }
  destruct Hint as [Hint Hne].
  pose proof (mergeIntervals_separated gap bt bb intervals
                ltac:(unfold gap; lia) Hint) as Hsep.
  destruct (merged_slices_stacked (Math_round (node_width frameNode)) maxH bb
              (mergeIntervals intervals gap) Hmax bt Hsep)
    as (slices & Hm & Hst & Hall).
  rewrite Hm. destruct slices as [|s0 slices].
  - destruct (fallback_loop_tiled (Math_round (node_width frameNode)) bb maxH Hmax
                (Z.to_nat (bb - bt)) bt (Nat.le_refl _))
      as (tiles & Hf & Ht & Hta & Htn).
    exists tiles. split; [exact Hf|]. split; [apply Htn; lia|].
    split; [apply tiled_stacked; exact Ht | exact Hta].
  - exists (s0 :: slices). split; [reflexivity|]. split; [discriminate|].
    split; assumption.
Qed.

Lemma suggestSlices_degenerate (frameNode : FrameNode) (opts : Opts) :
  frame_bounds frameNode = None
  \/ bodyBottom_of frameNode opts <= bodyTop_of frameNode opts ->
  suggestSlices frameNode opts = Some [].
Proof.
  intros H. unfold suggestSlices, getBounds.
  destruct (frame_bounds frameNode) as [frameBounds|]; [|reflexivity].
  destruct H as [H|H]; [discriminate|].
  fold (frameHeight_of frameNode). fold (bodyTop_of frameNode opts).
  fold (bodyBottom_of frameNode opts).
  apply Z.leb_le in H. rewrite H. reflexivity.
Qed.


(** The backend tiling: the loop exits within its fuel and tiles the
    body with rectangles no taller than the maximum. *)
Lemma tile_loop_tiled (logicalWidth bodyBottom safeMax : Z) :
  0 < safeMax ->
  forall (fuel : nat) (top : Z),
    (Z.to_nat (bodyBottom - top) <= fuel)%nat ->
    exists rects,
      Server.tile_loop fuel logicalWidth bodyBottom safeMax top = Some rects
      /\ tiled bodyBottom top (map server_span rects)
      /\ Forall (fun r => 0 < Server.height r <= safeMax) rects
      /\ (top < bodyBottom -> rects <> []).
Proof.
  intros Hmax. induction fuel as [|fuel IH]; intros top Hfuel;
    cbn [Server.tile_loop]; destruct (top <? bodyBottom) eqn:E.
  - apply Z.ltb_lt in E. lia.
  - apply Z.ltb_ge in E. exists []. cbn [map].
    split; [reflexivity|]. split; [constructor; exact E|]. split; [constructor | lia].
  - apply Z.ltb_lt in E. set (h := Z.min safeMax (bodyBottom - top)).
    assert (Hh : 0 < h <= safeMax /\ top + h <= bodyBottom) by (unfold h; lia).
    destruct (IH (top + h) ltac:(lia)) as (rects & Hs & Ht & Hall & _).
    rewrite Hs. cbn [option_map]. eexists. split; [reflexivity|].
    split; [|split; [|discriminate]].
    + cbn [map]. unfold server_span at 1. cbn [Server.y Server.height].
      constructor; [lia | lia | exact Ht].
    + constructor; [cbn [Server.height]; lia | exact Hall].
  - apply Z.ltb_ge in E. exists []. cbn [map].
    split; [reflexivity|]. split; [constructor; exact E|]. split; [constructor | lia].
Qed.

Lemma buildAutoVerticalSlices_tiled
    (logicalWidth bodyTop bodyBottom : Z) (maxSliceHeight : Q) :
  exists rects,
    Server.buildAutoVerticalSlices logicalWidth bodyTop bodyBottom maxSliceHeight
    = Some rects
    /\ tiled bodyBottom bodyTop (map server_span rects)
    /\ Forall (fun r => 0 < Server.height r
                        <= Z.max 200 (Math_round (Server.q_or maxSliceHeight 1200)))
         rects
    /\ (bodyTop < bodyBottom -> rects <> []).
Proof.
  unfold Server.buildAutoVerticalSlices.
  apply tile_loop_tiled; lia.
Qed.












End Suggester.

(** ** Manual entries in the pipeline *)

Section ManualChoice.
Import Js Server.

(** C10: an entry that is [null], [undefined] or has no [rect] is left
    out of the output without failing the batch: the output is that of
    the list without such entries, and dropping one such entry anywhere
    changes nothing.  With manual entries given, the choice of slices
    throws exactly when the normalized sequence is empty and returns that
    sequence otherwise; in the pipeline the empty sequence is the error
    of the request, raised before any slice is attempted, and a sequence
    that is not empty goes to the slice loop as it is. *)
Theorem normalizeManualRectSlices_skips_missing :
  (forall logicalWidth logicalHeight bodyTop bodyBottom l,
     normalizeManualRectSlices logicalWidth logicalHeight bodyTop bodyBottom l
     = normalizeManualRectSlices logicalWidth logicalHeight bodyTop bodyBottom
         (filter (fun s => negb (lacks_rect s)) l))
  /\ (forall logicalWidth logicalHeight bodyTop bodyBottom pre s post,
        lacks_rect s = true ->
        normalizeManualRectSlices logicalWidth logicalHeight bodyTop bodyBottom
          (pre ++ s :: post)
        = normalizeManualRectSlices logicalWidth logicalHeight bodyTop bodyBottom
            (pre ++ post))
  /\ (forall (a : BuildArgs) bodyTop bodyBottom,
        manualSlices a <> [] ->
        let out := normalizeManualRectSlices (logicalWidth a) (logicalHeight a)
                     bodyTop bodyBottom (manualSlices a) in
        (out = [] -> choose_slices a bodyTop bodyBottom = throw no_valid_manual_error)
        /\ (out <> [] -> choose_slices a bodyTop bodyBottom = ret out))
  /\ (forall (w : World) (cfg : Config) (a : BuildArgs) sw sh,
        readable w a sw sh ->
        bodyTop_of a < bodyBottom_of a ->
        manualSlices a <> [] ->
        let out := normalizeManualRectSlices (logicalWidth a) (logicalHeight a)
                     (bodyTop_of a) (bodyBottom_of a) (manualSlices a) in
        (out = [] ->
         buildAndUploadSlices w cfg a = (Throw no_valid_manual_error, [EvMetadata]))
        /\ (out <> [] ->
             buildAndUploadSlices w cfg a
             = bind (call EvMetadata (inr (Some sw, Some sh)))
                 (fun _ =>
                    bind (process_slices w cfg a
                            (Buffer_from_base64 w (sourceBase64 a)) sw sh 0 out)
                      (fun done => ret (mkBuilt done (bodyTop_of a) (bodyBottom_of a)))))).
Proof.
  assert (Hchoose : forall (a : BuildArgs) bodyTop bodyBottom,
            manualSlices a <> [] ->
            let out := normalizeManualRectSlices (logicalWidth a) (logicalHeight a)
                         bodyTop bodyBottom (manualSlices a) in
            (out = [] -> choose_slices a bodyTop bodyBottom = throw no_valid_manual_error)
            /\ (out <> [] -> choose_slices a bodyTop bodyBottom = ret out)).
  { intros a bodyTop bodyBottom Hne out. unfold choose_slices. fold out.
    destruct (manualSlices a) as [|s0 l0] eqn:El; [congruence|].
    split; intro Ho.
    - rewrite Ho. reflexivity.
    - destruct out; [congruence | reflexivity]. }
  split; [|split; [|split]].
  - intros. apply normalizeManualRectSlices_filter.
  - intros logicalWidth logicalHeight bodyTop bodyBottom pre s post Hs.
    rewrite !normalizeManualRectSlices_app. cbn [normalizeManualRectSlices].
    rewrite (normalizeManualRect_lacks_rect _ _ _ _ _ Hs). reflexivity.
  - exact Hchoose.
  - intros w cfg a sw sh Hread Hbody Hne out.
    rewrite (buildAndUploadSlices_readable w cfg a sw sh Hread Hbody).
    destruct (Hchoose a (bodyTop_of a) (bodyBottom_of a) Hne) as [Hempty Hsome].
    fold out in Hempty, Hsome. split; intro Ho.
    + rewrite (Hempty Ho). reflexivity.
    + rewrite (Hsome Ho). unfold call, ret. rewrite !bind_ok. cbn [fst snd app].
      reflexivity.
Qed.

End ManualChoice.

(** * Instances *)

Section Instances.
Import Js.
Local Open Scope string_scope.


(** A batch with a [null] entry and an entry without [rect]. *)
Lemma normalizeManualRectSlices_skips_missing_witness :
  Server.normalizeManualRectSlices 500 1000 100 900
    ([as_manual scenario_rect]
       ++ None :: [Some (Server.mkManualSlice None None None None)])
  = Server.normalizeManualRectSlices 500 1000 100 900
      ([as_manual scenario_rect]
         ++ [Some (Server.mkManualSlice None None None None)]).
Proof.
  apply (proj1 (proj2 normalizeManualRectSlices_skips_missing)).
  reflexivity.
Defined.

(** Header and footer that overlap: the pipeline throws the empty-body
    error. *)
Lemma empty_body_is_fatal_witness :
  exists message,
    outcome (Server.buildAndUploadSlices second_upload_fails default_config no_body_args)
    = Throw message
    /\ no_slice_attempted
         (trace (Server.buildAndUploadSlices second_upload_fails default_config
                   no_body_args)).
Proof.
  destruct (proj1 (empty_body_is_fatal second_upload_fails default_config) no_body_args)
    as (message & Ho & Hn & _).
  - vm_compute. discriminate.
  - exists message. split; assumption.
Defined.

(** The upload of the second slice fails: the answer is that error. *)
Lemma slice_failure_aborts_batch_witness :
  exists t,
    Server.push second_upload_fails default_config env_acme newsletter_request
    = (Ok (Server.JsonError 500 "socket hang up"), t).
Proof.
  eexists.
  apply (proj1 (proj2 (proj2 (proj2 (slice_failure_aborts_batch second_upload_fails
                                       default_config))))
           env_acme newsletter_request "acmecorp" "pk_live_1"
           "KLAVIYO_API_KEY_ACMECORP" "socket hang up").
  - reflexivity.
  - reflexivity.
  - vm_compute. reflexivity.
Defined.

(** C6, as stated, fails: with the default quality 80 over a floor of 62
    and a codec that never gets under the target, the search encodes at
    80, 75, 70, 65 and 60, five encodes against a bound of
    [(80 - 62) / 5 + 1], which is 23/5 (and 4 with the division
    truncated). *)
Lemma compressSlice_stated_bound_counterexample :
  jpeg_qualities
    (trace (Server.compressSlice never_under_target floor_62_config [x00] false))
  = [80; 75; 70; 65; 60]
  /\ ~ within_stated_bound floor_62_config
        (trace (Server.compressSlice never_under_target floor_62_config [x00] false))
  /\ ~ Z.of_nat
        (encodes
           (trace (Server.compressSlice never_under_target floor_62_config [x00] false)))
      <= (80 - 62) / 5 + 1.
Proof.
  split; [vm_compute; reflexivity|]. split.
  - intro H. vm_compute in H. apply H. reflexivity.
  - intro H. vm_compute in H. apply H. reflexivity.
Qed.

(** The default qualities 80 and 60: at most five encodes. *)
Lemma compressSlice_quality_search_bounded_witness :
  exists n : nat,
    Z.of_nat (S n) <= 5
    /\ encodes (trace (Server.compressSlice second_upload_fails default_config [x00] false))
       = S n
    /\ trace (Server.compressSlice second_upload_fails default_config [x00] false)
       = map (fun k => EvJpeg (80 - 5 * Z.of_nat k)) (seq 0 (S n)).
Proof.
  destruct (compressSlice_quality_search_bounded second_upload_fails default_config [x00])
    as (n & _ & Ht & He & _ & Hb & _).
  exists n. split; [|split].
  - apply Hb.
    + vm_compute. discriminate.
    + reflexivity.
  - exact He.
  - exact Ht.
Defined.

(** The scenarios of the specification. *)

Example tiling_scenario :
  Server.buildAutoVerticalSlices 1000 100 1900 1200
  = Some [Server.mkRect 0 100 1000 1200 "" "" "";
          Server.mkRect 0 1300 1000 600 "" "" ""].
Proof. reflexivity. Qed.

Example suggest_scenario :
  Plugin.suggestSlices childless_frame
    (Plugin.mkOpts (Some 100%Q) (Some 100%Q) (Some 1200%Q))
  = Some [Plugin.full_width_slice 1000 100 1200;
          Plugin.full_width_slice 1000 1300 600].
Proof. vm_compute. reflexivity. Qed.

Example manual_scenario :
  Server.normalizeManualRect 500 1000 100 900 scenario_entry = Some scenario_rect.
Proof. vm_compute. reflexivity. Qed.

Example transparent_scenario (w : Server.World) (cfg : Server.Config)
    (region png : Server.Buffer) :
  Server.sharp_png w region = inr png ->
  exists c,
    Server.compressSlice w cfg region true = (Ok c, [EvPng])
    /\ Server.mime c = "image/png" /\ Server.quality c = None.
Proof.
  intro H. unfold Server.compressSlice. rewrite H. eexists.
  split; [reflexivity|]. split; reflexivity.
Qed.

(** A batch in which nothing fails: both slices are extracted, encoded
    once and uploaded, in order. *)
Example whole_batch :
  exists body,
    Server.push every_call_succeeds default_config env_acme newsletter_request
    = (Ok (Server.Json200 body),
       [EvMetadata;
        EvExtract 0 0 1200 2400; EvJpeg 80; EvUpload "Newsletter-slice-1";
        EvExtract 0 2400 1200 1600; EvJpeg 80; EvUpload "Newsletter-slice-2"])
    /\ Server.sliceCount body = 2%nat
    /\ Server.body_accountId body = "acmecorp".
Proof. eexists. split; [vm_compute; reflexivity|]. split; reflexivity. Qed.

End Instances.

(** * Further properties of the backend *)

(** ** Account identifiers and bindings *)

Section Accounts.
Import Js Server.
Local Open Scope string_scope.

Ltac by_ascii c :=
  destruct c as [[] [] [] [] [] [] [] []]; vm_compute; try reflexivity; try discriminate.

Lemma account_char_lower (c : ascii) :
  account_char c = true -> lower_char c = c.
Proof. by_ascii c. Qed.

Lemma account_char_lower_char (c : ascii) :
  account_char (lower_char c) = true -> lower_char (lower_char c) = lower_char c.
Proof. intro H. apply account_char_lower. exact H. Qed.

Lemma strip_strip (s : string) :
  filter_string account_char (toLowerCase (filter_string account_char (toLowerCase s)))
  = filter_string account_char (toLowerCase s).
Proof.
  induction s as [|c r IH]; [reflexivity|].
  rewrite (strip_cons c r).
  destruct (account_char (lower_char c)) eqn:E; [|exact IH].
  rewrite strip_cons, (account_char_lower_char c E), E, IH. reflexivity.
Qed.

Lemma normalizeAccountId_fixed (raw : option string) :
  normalizeAccountId (Some (normalizeAccountId raw)) = normalizeAccountId raw.
Proof.
  rewrite (normalizeAccountId_filter (Some (normalizeAccountId raw))).
  rewrite (normalizeAccountId_filter raw). cbn [str_or_empty].
  apply strip_strip.
Qed.

(** X1: normalizing an identifier twice is the same as normalizing it
    once, and the result never holds a character outside [a-z0-9_-]. *)
Theorem normalizeAccountId_idempotent (raw : option string) :
  normalizeAccountId (Some (normalizeAccountId raw)) = normalizeAccountId raw
  /\ forall_string account_char (normalizeAccountId raw) = true.
Proof.
  split; [apply normalizeAccountId_fixed|].
  unfold normalizeAccountId. apply filter_string_forall.
Qed.

Lemma existsb_eqb_In (s : string) (l : list string) :
  existsb (String.eqb s) l = true <-> In s l.
Proof.
  rewrite existsb_exists. split.
  - intros (x & Hin & Heq). apply String.eqb_eq in Heq. subst. exact Hin.
  - intro H. exists s. split; [exact H | apply String.eqb_refl].
Qed.

Lemma dedupe_from_spec (l : list string) :
  forall seen,
    NoDup (dedupe_from seen l)
    /\ (forall a, In a (dedupe_from seen l) <-> In a l /\ ~ In a seen).
Proof.
  induction l as [|s r IH]; intro seen; cbn [dedupe_from].
  - split; [constructor|]. intro a. cbn. tauto.
  - destruct (existsb (String.eqb s) seen) eqn:E.
    + apply existsb_eqb_In in E. destruct (IH seen) as [Hnd Hin].
      split; [exact Hnd|]. intro a. rewrite Hin. cbn [In]. split.
      * intros [H1 H2]. auto.
      * intros [[->|H1] H2]; [contradiction | auto].
    + assert (Hs : ~ In s seen).
      { intro H. apply existsb_eqb_In in H. congruence. }
      destruct (IH (s :: seen)) as [Hnd Hin]. split.
      * constructor; [|exact Hnd]. rewrite Hin. cbn [In]. tauto.
      * intro a. cbn [In]. rewrite Hin. cbn [In].
        destruct (string_dec s a) as [->|Hne]; tauto.
Qed.

Lemma dedupe_spec (l : list string) :
  NoDup (dedupe l) /\ (forall a, In a (dedupe l) <-> In a l).
Proof.
  unfold dedupe. destruct (dedupe_from_spec l []) as [Hnd Hin].
  split; [exact Hnd|]. intro a. rewrite Hin. cbn [In]. tauto.
Qed.

Lemma nonempty_spec (s : string) : nonempty s = true <-> s <> "".
Proof. destruct s; cbn; split; congruence. Qed.

(** X2: the configured accounts are listed without repetition, and an
    account is listed exactly when it is the normalization, not empty, of
    one of the comma-separated pieces of [KLAVIYO_ACCOUNTS]; every listed
    account is therefore a normalized identifier. *)
Theorem readConfiguredAccounts_normalized (env : Env) :
  NoDup (readConfiguredAccounts env)
  /\ (forall a,
        In a (readConfiguredAccounts env)
        <-> a <> ""
            /\ exists piece,
                 In piece (split "," (str_or_empty (env "KLAVIYO_ACCOUNTS")))
                 /\ normalizeAccountId (Some piece) = a)
  /\ Forall (fun a => normalizeAccountId (Some a) = a) (readConfiguredAccounts env).
Proof.
  unfold readConfiguredAccounts.
  set (pieces := split "," (str_or_empty (env "KLAVIYO_ACCOUNTS"))).
  destruct (dedupe_spec
              (filter nonempty (map (fun v => normalizeAccountId (Some v)) pieces)))
    as [Hnd Hin].
  assert (Hchar : forall a,
            In a (dedupe (filter nonempty
                            (map (fun v => normalizeAccountId (Some v)) pieces)))
            <-> a <> "" /\ exists piece, In piece pieces
                                       /\ normalizeAccountId (Some piece) = a).
  { intro a. rewrite Hin, filter_In, in_map_iff, nonempty_spec. split.
    - intros [(piece & Hp & Hi) Hne]. split; [exact Hne|]. exists piece. auto.
    - intros [Hne (piece & Hi & Hp)]. split; [|exact Hne]. exists piece. auto. }
  split; [exact Hnd|]. split; [exact Hchar|].
  apply Forall_forall. intros a Ha. apply Hchar in Ha.
  destruct Ha as [_ (piece & _ & <-)]. apply normalizeAccountId_fixed.
Qed.

Lemma map_string_length (f : ascii -> ascii) (s : string) :
  String.length (map_string f s) = String.length s.
Proof. induction s as [|c r IH]; cbn; [reflexivity | rewrite IH; reflexivity]. Qed.

Lemma env_key_char_valid (c : ascii) : env_name_char (env_key_char c) = true.
Proof. by_ascii c. Qed.

Lemma env_key_char_hyphen (c : ascii) :
  env_key_char (upper_char (hyphen_as_underscore c)) = env_key_char (upper_char c).
Proof. by_ascii c. Qed.

Lemma env_key_char_account (c : ascii) :
  account_char c = true ->
  env_key_char (upper_char c) = upper_char (hyphen_as_underscore c).
Proof. by_ascii c. Qed.

(** X3: for a normalized identifier (characters of [a-z0-9_-] only, as
    [normalizeAccountId] returns and [resolveApiKey] passes), the variable
    looked up is [KLAVIYO_API_KEY_] followed by the identifier in upper
    case with every hyphen turned into an underscore: one character of
    [A-Z0-9_] for each character of the identifier.  A hyphen and an
    underscore give the same character, so two identifiers that differ
    only in them share one binding. *)
Theorem accountEnvKey_shape (accountId : string) :
  forall_string account_char accountId = true ->
  accountEnvKey accountId
  = "KLAVIYO_API_KEY_" ++ toUpperCase (map_string hyphen_as_underscore accountId)
  /\ String.length (toUpperCase (map_string hyphen_as_underscore accountId))
     = String.length accountId
  /\ forall_string env_name_char
       (toUpperCase (map_string hyphen_as_underscore accountId)) = true
  /\ accountEnvKey (map_string hyphen_as_underscore accountId)
     = accountEnvKey accountId.
Proof.
  intro Hnorm.
  assert (Hsuffix : map_string env_key_char (toUpperCase accountId)
                    = toUpperCase (map_string hyphen_as_underscore accountId)).
  { induction accountId as [|c r IH]; [reflexivity|].
    cbn [forall_string] in Hnorm. apply andb_true_iff in Hnorm.
    destruct Hnorm as [Hc Hr].
    cbn [toUpperCase map_string] in *.
    rewrite (env_key_char_account c Hc), (IH Hr). reflexivity. }
  split; [|split; [|split]].
  - unfold accountEnvKey. rewrite Hsuffix. reflexivity.
  - unfold toUpperCase. rewrite !map_string_length. reflexivity.
  - rewrite <- Hsuffix. clear Hsuffix Hnorm.
    induction accountId as [|c r IH]; [reflexivity|].
    cbn [toUpperCase map_string forall_string].
    rewrite env_key_char_valid. exact IH.
  - unfold accountEnvKey. f_equal. clear Hsuffix Hnorm.
    induction accountId as [|c r IH]; [reflexivity|].
    cbn [toUpperCase map_string] in *.
    rewrite env_key_char_hyphen, IH. reflexivity.
Qed.

(** X4: a credential that is returned is the value, not empty, of the
    environment variable named as its source; the source is the binding
    of the returned account, or one of the two default variables for the
    account [default]. *)
Theorem resolveApiKey_source (env : Env) (raw : option string)
    (accountId apiKey source : string) :
  resolveApiKey env raw = ResolvedOk accountId apiKey source ->
  env source = Some apiKey
  /\ apiKey <> ""
  /\ (source = accountEnvKey accountId
       \/ (accountId = "default"
            /\ (source = "KLAVIYO_API_KEY" \/ source = "KLAVIYO_PRIVATE_KEY"))).
Proof.
  unfold resolveApiKey.
  destruct (nonempty (normalizeAccountId raw)).
  - destruct (env (accountEnvKey (normalizeAccountId raw))) as [[|c k]|] eqn:E;
      try discriminate.
    intros [= <- <- <-]. split; [exact E|]. split; [discriminate | auto].
  - unfold or_else.
    destruct (env "KLAVIYO_API_KEY") as [[|c1 k1]|] eqn:E1; cbn [truthy].
    2:{ intros [= <- <- <-]. split; [exact E1|]. split; [discriminate | auto]. }
    all: destruct (env "KLAVIYO_PRIVATE_KEY") as [[|c2 k2]|] eqn:E2.
    all: try (intros [= <- <- <-]; split; [exact E2|]; split; [discriminate | auto]).
    all: destruct (readConfiguredAccounts env) as [|first l]; try discriminate.
    all: destruct (env (accountEnvKey first)) as [[|c k]|] eqn:E; try discriminate.
    all: intros [= <- <- <-]; split; [exact E|]; split; [discriminate | auto].
Qed.

Lemma fallback_truthy (env : Env) :
  truthy (or_else (env "KLAVIYO_API_KEY") (env "KLAVIYO_PRIVATE_KEY")) = true
  <-> default_credential env <> None.
Proof.
  unfold or_else, default_credential, binding.
  destruct (env "KLAVIYO_API_KEY") as [[|c1 k1]|]; cbn [truthy];
    destruct (env "KLAVIYO_PRIVATE_KEY") as [[|c2 k2]|]; cbn [truthy];
    split; congruence.
Qed.

(** X5: the accounts offered by [/api/accounts] are the configured ones,
    and [default] when a default credential is configured, without
    repetition.  The name [default] is not accepted back: resolving it
    reads [KLAVIYO_API_KEY_DEFAULT] like any other identifier, and fails
    without that binding even with the default credential in place. *)
Theorem api_accounts_default (env : Env) :
  NoDup (api_accounts env)
  /\ (forall a,
        In a (api_accounts env)
        <-> In a (readConfiguredAccounts env)
            \/ (a = "default" /\ default_credential env <> None))
  /\ (binding env "KLAVIYO_API_KEY_DEFAULT" = None ->
       resolveApiKey env (Some "default")
       = ResolvedErr (missing_key_error "default" "KLAVIYO_API_KEY_DEFAULT")).
Proof.
  unfold api_accounts.
  pose proof (fallback_truthy env) as Hf.
  destruct (truthy (or_else (env "KLAVIYO_API_KEY") (env "KLAVIYO_PRIVATE_KEY"))).
  - destruct (dedupe_spec ("default" :: readConfiguredAccounts env)) as [Hnd Hin].
    split; [exact Hnd|]. split.
    + intro a. rewrite Hin. cbn [In]. split.
      * intros [<-|H]; [right; split; [reflexivity | apply Hf; reflexivity] | auto].
      * intros [H|[-> _]]; auto.
    + intro Hb. unfold binding in Hb.
      change (resolveApiKey env (Some "default"))
        with (match env "KLAVIYO_API_KEY_DEFAULT" with
              | Some (String c k) =>
                  ResolvedOk "default" (String c k) "KLAVIYO_API_KEY_DEFAULT"
              | _ => ResolvedErr (missing_key_error "default" "KLAVIYO_API_KEY_DEFAULT")
              end).
      destruct (env "KLAVIYO_API_KEY_DEFAULT") as [[|c k]|]; try discriminate;
        reflexivity.
  - destruct (dedupe_spec (readConfiguredAccounts env)) as [Hnd Hin].
    split; [exact Hnd|]. split.
    + intro a. rewrite Hin. split; [auto|].
      intros [H|[_ H]]; [exact H|]. apply Hf in H. discriminate.
    + intro Hb. unfold binding in Hb.
      change (resolveApiKey env (Some "default"))
        with (match env "KLAVIYO_API_KEY_DEFAULT" with
              | Some (String c k) =>
                  ResolvedOk "default" (String c k) "KLAVIYO_API_KEY_DEFAULT"
              | _ => ResolvedErr (missing_key_error "default" "KLAVIYO_API_KEY_DEFAULT")
              end).
      destruct (env "KLAVIYO_API_KEY_DEFAULT") as [[|c k]|]; try discriminate;
        reflexivity.
Qed.

End Accounts.

Section AccountInstances.
Import Js Server.
Local Open Scope string_scope.

(** The binding of ["ACME Corp!"]: the source holds the key. *)
Lemma resolveApiKey_source_witness :
  env_acme "KLAVIYO_API_KEY_ACMECORP" = Some "pk_live_1" /\ "pk_live_1" <> "".
Proof.
  destruct (resolveApiKey_source env_acme (Some "ACME Corp!")
              "acmecorp" "pk_live_1" "KLAVIYO_API_KEY_ACMECORP" eq_refl)
    as (H1 & H2 & _).
  split; assumption.
Defined.

(** Only the default credential configured: [default] is offered and
    then refused. *)
Lemma api_accounts_default_witness :
  In "default" (api_accounts env_default_only)
  /\ resolveApiKey env_default_only (Some "default")
     = ResolvedErr (missing_key_error "default" "KLAVIYO_API_KEY_DEFAULT").
Proof.
  destruct (api_accounts_default env_default_only) as (_ & Hin & Hres).
  split.
  - apply Hin. right. split; [reflexivity | vm_compute; discriminate].
  - apply Hres. reflexivity.
Defined.

(** The identifier [acme-eu_2] is looked up as [KLAVIYO_API_KEY_ACME_EU_2]. *)
Lemma accountEnvKey_shape_witness :
  accountEnvKey "acme-eu_2" = "KLAVIYO_API_KEY_ACME_EU_2"
  /\ accountEnvKey "acme_eu_2" = accountEnvKey "acme-eu_2".
Proof.
  destruct (accountEnvKey_shape "acme-eu_2" eq_refl) as (H1 & _ & _ & H2).
  split; [exact H1 | exact H2].
Defined.

End AccountInstances.

(** ** Numbers, links and rectangles *)

Section Geometry.
Import Js Server.
Local Open Scope string_scope.

Lemma prefix_map_split (f : ascii -> ascii) (s : string) :
  forall p,
    String.prefix p (map_string f s) = true
    <-> exists a b, s = a ++ b /\ map_string f a = p.
Proof.
  induction s as [|d s IH]; intro p; split.
  - intro H. destruct p as [|c p]; [|discriminate H].
    exists "", "". split; reflexivity.
  - intros (a & b & Hs & <-). destruct a as [|c a]; [reflexivity | discriminate Hs].
  - intro H. destruct p as [|c p].
    + exists "", (String d s). split; reflexivity.
    + cbn [map_string String.prefix] in H.
      destruct (Ascii.ascii_dec c (f d)) as [->|]; [|discriminate H].
      apply IH in H. destruct H as (a & b & -> & <-).
      exists (String d a), b. split; reflexivity.
  - intros (a & b & Hs & <-). destruct a as [|c a]; [reflexivity|].
    cbn [append] in Hs. injection Hs as <- ->.
    cbn [map_string String.prefix].
    destruct (Ascii.ascii_dec (f d) (f d)) as [_|Hne]; [|exfalso; apply Hne; reflexivity].
    apply IH. exists a, b. split; reflexivity.
Qed.

Lemma has_http_scheme_spec (s : string) :
  has_http_scheme s = true
  <-> exists scheme rest, s = scheme ++ rest /\ is_http_scheme scheme.
Proof.
  unfold has_http_scheme, is_http_scheme, toLowerCase. cbv zeta.
  rewrite orb_true_iff, !prefix_map_split. split.
  - intros [(a & b & Hs & Ha)|(a & b & Hs & Ha)]; exists a, b; auto.
  - intros (a & b & Hs & [Ha|Ha]); [left | right]; exists a, b; auto.
Qed.

(** X6: a link that is a string, or absent, is kept unchanged exactly
    when it is empty or begins with [http://] or [https://], the letters
    in either case; what follows the scheme is not looked at.  Any other
    link becomes the empty string, and so does an absent one.  Filtering
    twice changes nothing more. *)
Theorem safeUrl_keeps_http_only (u : option string) :
  (safeUrl u = str_or_empty u
   <-> str_or_empty u = ""
       \/ exists scheme rest,
            str_or_empty u = scheme ++ rest /\ is_http_scheme scheme)
  /\ (safeUrl u = str_or_empty u \/ safeUrl u = "")
  /\ safeUrl None = ""
  /\ safeUrl (Some (safeUrl u)) = safeUrl u.
Proof.
  split; [|split; [|split; [reflexivity | apply safeUrl_idempotent]]].
  - unfold safeUrl. destruct (has_http_scheme (str_or_empty u)) eqn:E.
    + split; [|reflexivity]. intros _. right. apply has_http_scheme_spec. exact E.
    + split.
      * intro H. left. symmetry. exact H.
      * intros [H|H]; [symmetry; exact H|].
        apply has_http_scheme_spec in H. congruence.
  - unfold safeUrl. destruct (has_http_scheme (str_or_empty u)); [left | right]; reflexivity.
Qed.

(** An upper-case scheme is kept; a link without a scheme is not. *)
Lemma safeUrl_keeps_http_only_witness :
  safeUrl (Some "HTTPS://Example.com/a b") = "HTTPS://Example.com/a b"
  /\ safeUrl (Some "example.com") <> "example.com".
Proof.
  split.
  - apply (proj1 (safeUrl_keeps_http_only (Some "HTTPS://Example.com/a b"))).
    right. exists "HTTPS://", "Example.com/a b". split; [reflexivity|].
    right. reflexivity.
  - intro H. discriminate H.
Defined.

(** X7: the size in kilobytes is a whole number of hundredths, within
    half a hundredth of [bytes / 1024]. *)
Theorem bytesToKb_rounds (bytes : Z) :
  (exists hundredths : Z, bytesToKb bytes = inject_Z hundredths / 100)%Q
  /\ (inject_Z bytes / 1024 - (1 # 200) < bytesToKb bytes)%Q
  /\ (bytesToKb bytes <= inject_Z bytes / 1024 + (1 # 200))%Q.
Proof.
  unfold bytesToKb, Math_round.
  set (v := (inject_Z bytes / 1024 * 100 + (1 # 2))%Q).
  pose proof (Qfloor_le v) as Hle. pose proof (Qlt_floor v) as Hlt.
  rewrite inject_Z_plus in Hlt.
  set (n := inject_Z (Qfloor v)) in *.
  split; [exists (Qfloor v); reflexivity|].
  change (inject_Z 1) with 1%Q in Hlt. unfold v in *. clearbody n.
  assert (E1 : (inject_Z bytes / 1024 == inject_Z bytes * (1 # 1024))%Q)
    by (unfold Qdiv; reflexivity).
  assert (E2 : (n / 100 == n * (1 # 100))%Q) by (unfold Qdiv; reflexivity).
  rewrite E1 in *. rewrite E2. split; lra.
Qed.

Lemma px_integer (val k : Z) : 0 <= val -> 0 <= k -> px val (inject_Z k) = val * k.
Proof.
  intros Hv Hk. unfold px.
  change (inject_Z val * inject_Z k)%Q with (inject_Z (val * k)).
  rewrite Math_round_integer. nia.
Qed.

(** X8: when the export is exact (the source image is the logical frame
    times a whole scale factor), a rectangle inside the frame is rescaled
    by plain multiplication: no clamp changes it. *)
Theorem clampExtractRect_exact_export
    (rect : Rect) (k logicalWidth logicalHeight : Z) :
  1 <= k ->
  inside_frame logicalWidth logicalHeight rect ->
  clampExtractRect rect (inject_Z k) (logicalWidth * k) (logicalHeight * k)
  = scaled_rect k rect.
Proof.
  intros Hk (Hx & Hy & Hw & Hh & Hxw & Hyh).
  unfold clampExtractRect, scaled_rect.
  rewrite !px_integer by lia.
  unfold clamp. f_equal; nia.
Qed.

Lemma clampExtractRect_exact_export_witness :
  clampExtractRect (mkRect 0 1200 600 800 "" "" "") (inject_Z 2) (600 * 2) (2000 * 2)
  = scaled_rect 2 (mkRect 0 1200 600 800 "" "" "").
Proof.
  apply clampExtractRect_exact_export.
  - lia.
  - unfold inside_frame. simpl. lia.
Defined.

Lemma normalizeManualRect_bounds
    (logicalWidth logicalHeight bodyTop bodyBottom : Z)
    (s : option ManualSlice) (r : Rect) :
  normalizeManualRect logicalWidth logicalHeight bodyTop bodyBottom s = Some r ->
  in_bounds logicalWidth bodyTop bodyBottom r
  /\ (url r = "" \/ has_http_scheme (url r) = true).
Proof.
  unfold normalizeManualRect.
  destruct s as [s|]; [|discriminate].
  destruct (rect s) as [raw|]; [|discriminate].
  set (x0 := clamp _ 0 _). set (y0 := clamp _ bodyTop _).
  set (w0 := clamp _ 1 (Z.max 1 (logicalWidth - x0))).
  set (h0 := clamp _ 1 (Z.max 1 (bodyBottom - y0))).
  destruct (w0 <? 2)%Z eqn:Ew; [discriminate|].
  destruct (h0 <? 2)%Z eqn:Eh; [discriminate|].
  cbn [orb]. intros [= <-].
  apply Z.ltb_ge in Ew, Eh. split.
  - unfold in_bounds. cbn [x y width height].
    pose proof (server_clamp_bounds (Math_round (num_or (raw_x raw) 0)) 0
                  (Z.max 0 (logicalWidth - 1)) ltac:(lia)) as Hx0.
    pose proof (server_clamp_bounds (Math_round (num_or (raw_y raw) 0)) bodyTop
                  (Z.max bodyTop (bodyBottom - 1)) ltac:(lia)) as Hy0.
    fold x0 in Hx0. fold y0 in Hy0.
    pose proof (server_clamp_bounds (Math_round (num_or (raw_width raw) 0)) 1
                  (Z.max 1 (logicalWidth - x0)) ltac:(lia)) as Hw0.
    pose proof (server_clamp_bounds (Math_round (num_or (raw_height raw) 0)) 1
                  (Z.max 1 (bodyBottom - y0)) ltac:(lia)) as Hh0.
    fold w0 in Hw0. fold h0 in Hh0.
    clearbody x0 y0 w0 h0. lia.
  - cbn [url]. unfold safeUrl.
    destruct (has_http_scheme (str_or_empty (ms_url s))) eqn:E; auto.
Qed.

(** X9: for an integer frame width and integer body bounds, and entries
    whose coordinates are finite numbers or absent: every rectangle the
    manual normalizer returns has integer coordinates inside the frame
    width and the body region, is at least 2 by 2, and carries a link that
    is empty or starts with an HTTP scheme; the output is never longer
    than the input. *)
Theorem normalizeManualRectSlices_in_bounds
    (logicalWidth logicalHeight bodyTop bodyBottom : Z)
    (manualSlices : list (option ManualSlice)) :
  Forall (fun r => in_bounds logicalWidth bodyTop bodyBottom r
                   /\ (url r = "" \/ has_http_scheme (url r) = true))
    (normalizeManualRectSlices logicalWidth logicalHeight bodyTop bodyBottom manualSlices)
  /\ (List.length (normalizeManualRectSlices logicalWidth logicalHeight
                     bodyTop bodyBottom manualSlices)
      <= List.length manualSlices)%nat.
Proof.
  induction manualSlices as [|s l [IH1 IH2]]; cbn [normalizeManualRectSlices].
  - split; [constructor | apply Nat.le_refl].
  - destruct (normalizeManualRect logicalWidth logicalHeight bodyTop bodyBottom s)
      as [r|] eqn:E; cbn [List.length].
    + split; [|lia]. constructor; [|exact IH1].
      exact (normalizeManualRect_bounds _ _ _ _ _ _ E).
    + split; [exact IH1 | lia].
Qed.

Lemma normalizeManualRectSlices_narrow
    (logicalWidth logicalHeight bodyTop bodyBottom : Z)
    (manualSlices : list (option ManualSlice)) :
  logicalWidth < 2 \/ bodyBottom - bodyTop < 2 ->
  normalizeManualRectSlices logicalWidth logicalHeight bodyTop bodyBottom manualSlices
  = [].
Proof.
  intro Hn. induction manualSlices as [|s l IH]; cbn [normalizeManualRectSlices];
    [reflexivity|].
  destruct (normalizeManualRect logicalWidth logicalHeight bodyTop bodyBottom s)
    as [r|] eqn:E; [|exact IH].
  destruct (normalizeManualRect_bounds _ _ _ _ _ _ E) as [Hb _].
  unfold in_bounds in Hb. lia.
Qed.

End Geometry.

(** ** Tiling, encoding and uploading *)

Section Stages.
Import Js Server.
Local Open Scope string_scope.

Variable w : World.
Variable cfg : Config.

Lemma tile_loop_count (logicalWidth bodyBottom safeMax : Z) :
  (0 < safeMax)%Z ->
  forall (fuel : nat) (top : Z),
    (Z.to_nat (bodyBottom - top) <= fuel)%nat ->
    exists rects,
      tile_loop fuel logicalWidth bodyBottom safeMax top = Some rects
      /\ List.length rects
         = Z.to_nat ((bodyBottom - top + safeMax - 1) / safeMax)
      /\ Forall (plain_full_width logicalWidth) rects.
Proof.
  intros Hmax. induction fuel as [|fuel IH]; intros top Hfuel;
    cbn [tile_loop]; destruct (top <? bodyBottom)%Z eqn:E.
  - apply Z.ltb_lt in E. lia.
  - apply Z.ltb_ge in E. exists []. split; [reflexivity|]. split; [|constructor].
    assert ((bodyBottom - top + safeMax - 1) / safeMax < 1)%Z
      by (apply Z.div_lt_upper_bound; lia).
    cbn [List.length]. lia.
  - apply Z.ltb_lt in E. set (h := Z.min safeMax (bodyBottom - top)).
    destruct (IH (top + h)%Z ltac:(unfold h; lia)) as (rects & Hs & Hlen & Hall).
    rewrite Hs. cbn [option_map]. eexists. split; [reflexivity|]. split.
    + cbn [List.length]. rewrite Hlen.
      destruct (Z_le_gt_dec (bodyBottom - top) safeMax) as [Hsmall|Hbig].
      * replace (bodyBottom - (top + h) + safeMax - 1)%Z with (safeMax - 1)%Z
          by (unfold h; lia).
        rewrite (Z.div_small (safeMax - 1) safeMax) by lia.
        assert ((bodyBottom - top + safeMax - 1) / safeMax = 1)%Z as ->.
        { symmetry. apply (Z.div_unique _ _ 1 (bodyBottom - top - 1)); lia. }
        reflexivity.
      * replace (bodyBottom - top + safeMax - 1)%Z
          with (bodyBottom - (top + h) + safeMax - 1 + 1 * safeMax)%Z
          by (unfold h; lia).
        rewrite Z.div_add by lia.
        assert (0 <= (bodyBottom - (top + h) + safeMax - 1) / safeMax)%Z
          by (apply Z.div_pos; unfold h; lia).
        lia.
    + constructor; [|exact Hall]. unfold plain_full_width.
      cbn [x width url label alt]. auto.
  - apply Z.ltb_ge in E. exists []. split; [reflexivity|]. split; [|constructor].
    assert ((bodyBottom - top + safeMax - 1) / safeMax < 1)%Z
      by (apply Z.div_lt_upper_bound; lia).
    cbn [List.length]. lia.
Qed.

(** X11: for integer body bounds and a maximum height that is a finite
    number: the backend tiling of the body returns, with as many
    rectangles as the body height divided by the effective maximum,
    rounded up (none for an empty body); each starts at the left edge,
    spans the logical width and carries no link, label or alternative
    text. *)
Theorem buildAutoVerticalSlices_count
    (logicalWidth bodyTop bodyBottom : Z) (maxSliceHeight : Q) :
  let safeMax := Z.max 200 (Math_round (q_or maxSliceHeight 1200)) in
  exists rects,
    buildAutoVerticalSlices logicalWidth bodyTop bodyBottom maxSliceHeight = Some rects
    /\ List.length rects = Z.to_nat ((bodyBottom - bodyTop + safeMax - 1) / safeMax)
    /\ Forall (plain_full_width logicalWidth) rects.
Proof.
  intro safeMax. unfold buildAutoVerticalSlices. fold safeMax.
  apply tile_loop_count; [unfold safeMax; lia | apply Nat.le_refl].
Qed.

(** X12: an upload makes one call to the API, never a second one.  It
    returns an address exactly when the call answers with a success
    status and an [image_url] that is not empty, and the address is that
    one; a call that fails throws its own error; an answer with an error
    status throws [Image upload failed: ] followed by the detail of the
    answer, else its error text, else [HTTP ] and the status; a success
    answer without an address throws too. *)
Theorem uploadImageToKlaviyo_outcomes (apiKey name base64Image mimeType : string) :
  let run := uploadImageToKlaviyo w apiKey name base64Image mimeType in
  trace run = [EvUpload name]
  /\ (forall address,
        outcome run = Ok address
        <-> exists r,
              fetch_images w apiKey name base64Image mimeType = inr r
              /\ resp_ok r = true /\ image_url r = Some address /\ address <> "")
  /\ (forall e,
        fetch_images w apiKey name base64Image mimeType = inl e ->
        outcome run = Throw e)
  /\ (forall r,
        fetch_images w apiKey name base64Image mimeType = inr r ->
        resp_ok r = false ->
        outcome run
        = Throw ("Image upload failed: "
                 ++ extractErrorText (errors_0_detail r) (resp_error r)
                      ("HTTP " ++ string_of_Z (resp_status r))))
  /\ (forall r,
        fetch_images w apiKey name base64Image mimeType = inr r ->
        resp_ok r = true ->
        image_url r = None \/ image_url r = Some "" ->
        outcome run
        = Throw "Image uploaded but image_url missing from Klaviyo response").
Proof.
  intro run. subst run. unfold uploadImageToKlaviyo, call.
  destruct (fetch_images w apiKey name base64Image mimeType) as [e|r] eqn:Ef.
  - rewrite bind_throw. unfold trace, outcome. cbn [fst snd].
    split; [reflexivity|]. split.
    + intro address. split; [discriminate|]. intros (r & Hr & _). discriminate.
    + split; [intros e0 [= <-]; reflexivity|].
      split; intros r Hr; discriminate.
  - rewrite bind_ok. unfold trace, outcome. cbn [fst snd].
    destruct (resp_ok r) eqn:Eok; cbn [negb].
    + destruct (image_url r) as [[|c u]|] eqn:Eu; unfold throw, ret; cbn [fst snd].
      * split; [reflexivity|]. split.
        { intro address. split; [discriminate|].
          intros (r0 & [= <-] & _ & Hu & Hne). congruence. }
        split; [discriminate|]. split.
        { intros r0 [= <-] H. congruence. }
        intros r0 [= <-] _ _. reflexivity.
      * split; [reflexivity|]. split.
        { intro address. split.
          - intros [= <-]. exists r. repeat split; auto. discriminate.
          - intros (r0 & [= <-] & _ & Hu & _). congruence. }
        split; [discriminate|]. split.
        { intros r0 [= <-] H. congruence. }
        intros r0 [= <-] _ [H|H]; congruence.
      * split; [reflexivity|]. split.
        { intro address. split; [discriminate|].
          intros (r0 & [= <-] & _ & Hu & _). congruence. }
        split; [discriminate|]. split.
        { intros r0 [= <-] H. congruence. }
        intros r0 [= <-] _ _. reflexivity.
    + unfold throw. cbn [fst snd].
      split; [reflexivity|]. split.
      { intro address. split; [discriminate|].
        intros (r0 & [= <-] & Hok & _). congruence. }
      split; [discriminate|]. split.
      { intros r0 [= <-] _. reflexivity. }
      intros r0 [= <-] H. congruence.
Qed.

(** X13: with integer default and floor qualities, the quality an
    opaque region ends with is the default lowered by a whole number of
    steps of 5.  It is never above the default and never below the lower
    of the default and the floor less 4; it is not below the floor at all
    when the floor is a multiple of 5 below the default.  The result is
    JPEG, and it is within the byte target unless the quality is at or
    below the floor. *)
Theorem compressSlice_quality_range (sliceBuffer : Buffer) (c : Compressed) :
  outcome (compressSlice w cfg sliceBuffer false) = Ok c ->
  let d := defaultJpegQuality cfg in
  let f := minJpegQuality cfg in
  exists (q : Z) (n : nat),
    quality c = Some q
    /\ q = (d - 5 * Z.of_nat n)%Z
    /\ (Z.min d (f - 4) <= q <= d)%Z
    /\ ((f <= d)%Z -> ((d - f) mod 5 = 0)%Z -> (f <= q)%Z)
    /\ mime c = "image/jpeg"
    /\ ((inject_Z (Buffer_length (buf c)) <= targetBytes_of cfg)%Q \/ (q <= f)%Z).
Proof.
  intros Hrun d f. unfold compressSlice in Hrun. fold d in Hrun. fold f in Hrun.
  destruct (sharp_jpeg w sliceBuffer d) as [e|best] eqn:Ej; unfold call in Hrun;
    [discriminate Hrun|].
  rewrite bind_ok in Hrun. unfold outcome in Hrun. cbn [fst snd] in Hrun.
  destruct (quality_loop_spec w cfg sliceBuffer (Z.to_nat (d - f)) d best
              (Nat.le_refl _))
    as (n & _ & _ & Hlast & _ & _ & Hok).
  fold (targetBytes_of cfg) in Hrun.
  destruct (quality_loop w cfg (Z.to_nat (d - f)) sliceBuffer (targetBytes_of cfg) d best)
    as [[[q' b']|e|] tl]; unfold outcome in Hok; cbn [fst snd] in *;
    try discriminate Hrun.
  rewrite bind_ok in Hrun. unfold ret in Hrun. cbn [fst snd] in Hrun.
  injection Hrun as <-. cbn [quality mime buf].
  destruct (Hok q' b' eq_refl) as (Hq & Hstop & _).
  exists q', n. split; [reflexivity|]. split; [exact Hq|].
  split; [|split; [|split; [reflexivity|]]].
  - destruct n as [|n]; [lia|].
    specialize (Hlast ltac:(discriminate)). lia.
  - intros Hfd Hmod.
    pose proof (Z.div_mod (d - f) 5 ltac:(lia)) as Hdm. rewrite Hmod in Hdm.
    destruct n as [|n]; [lia|].
    specialize (Hlast ltac:(discriminate)). lia.
  - apply (keep_searching_stop cfg). exact Hstop.
Qed.

End Stages.

(** ** Batches and answers *)

Section Batches.
Import Js Server.

Variable w : World.
Variable cfg : Config.

(** X14: an image whose width or height is absent or zero is refused
    with its own error after the metadata read, before the body region is
    looked at and before any slice is attempted; an error of the metadata
    read itself is passed on. *)
Theorem buildAndUploadSlices_unreadable (a : BuildArgs) :
  let meta := sharp_metadata w (Buffer_from_base64 w (sourceBase64 a)) in
  (forall ow oh,
     meta = inr (ow, oh) -> dim ow = 0%Z \/ dim oh = 0%Z ->
     buildAndUploadSlices w cfg a = (Throw unreadable_error, [EvMetadata]))
  /\ (forall e,
        meta = inl e -> buildAndUploadSlices w cfg a = (Throw e, [EvMetadata])).
Proof.
  intro meta. subst meta. unfold buildAndUploadSlices. split.
  - intros ow oh -> Hz. unfold call. rewrite bind_ok. cbn [fst snd].
    assert (E : ((dim ow =? 0) || (dim oh =? 0))%bool = true).
    { apply orb_true_iff. destruct Hz as [Hz|Hz]; [left|right]; apply Z.eqb_eq; exact Hz. }
    rewrite E. reflexivity.
  - intros e ->. reflexivity.
Qed.

(** X10: for a request with an integer logical width and height whose
    manual entries have numbers, or nothing, as coordinates: when the
    image is readable, the body is not empty, and the frame is narrower
    than 2 pixels or the body lower than 2 pixels, no manual rectangle
    survives the normalizer, whatever it asks for, and
    [buildAndUploadSlices] throws the error of manual entries without a
    valid rectangle, after the metadata read and before any slice is
    attempted. *)
Theorem manual_slices_need_two_pixels (a : BuildArgs) (sw sh : Z) :
  readable w a sw sh ->
  bodyTop_of a < bodyBottom_of a ->
  logicalWidth a < 2 \/ bodyBottom_of a - bodyTop_of a < 2 ->
  manualSlices a <> [] ->
  normalizeManualRectSlices (logicalWidth a) (logicalHeight a)
    (bodyTop_of a) (bodyBottom_of a) (manualSlices a) = []
  /\ buildAndUploadSlices w cfg a = (Throw no_valid_manual_error, [EvMetadata]).
Proof.
  intros Hread Hbody Hn Hne.
  pose proof (normalizeManualRectSlices_narrow (logicalWidth a) (logicalHeight a)
                (bodyTop_of a) (bodyBottom_of a) (manualSlices a) Hn) as Hnone.
  split; [exact Hnone|].
  rewrite (buildAndUploadSlices_readable w cfg a sw sh Hread Hbody).
  unfold call. rewrite bind_ok. unfold choose_slices.
  destruct (manualSlices a) as [|s0 l0] eqn:El; [congruence|].
  rewrite Hnone. reflexivity.
Qed.

Lemma upload_names_app (t1 t2 : list Event) :
  upload_names (t1 ++ t2) = upload_names t1 ++ upload_names t2.
Proof.
  induction t1 as [|ev t1 IH]; [reflexivity|].
  destruct ev; cbn [app upload_names]; rewrite IH; reflexivity.
Qed.

Lemma quality_loop_no_upload (src : Buffer) (target : Q) :
  forall (fuel : nat) (q : Z) (best : Buffer),
    upload_names (trace (quality_loop w cfg fuel src target q best)) = [].
Proof.
  induction fuel as [|fuel IH]; intros q best; cbn [quality_loop];
    destruct (keep_searching cfg target q best); try reflexivity.
  unfold call. destruct (sharp_jpeg w src (q - 5)) as [e|b]; [reflexivity|].
  rewrite bind_ok. unfold trace in *. cbn [fst snd app upload_names]. apply IH.
Qed.

Lemma compressSlice_no_upload (sliceBuffer : Buffer) (hasAlpha : bool) :
  upload_names (trace (compressSlice w cfg sliceBuffer hasAlpha)) = [].
Proof.
  unfold compressSlice, call. destruct hasAlpha.
  - destruct (sharp_png w sliceBuffer); reflexivity.
  - destruct (sharp_jpeg w sliceBuffer (defaultJpegQuality cfg)) as [e|best];
      [reflexivity|].
    rewrite bind_ok. unfold trace. cbn [fst snd app upload_names].
    pose proof (quality_loop_no_upload sliceBuffer
                  (targetSliceKb cfg * 1024)%Q
                  (Z.to_nat (defaultJpegQuality cfg - minJpegQuality cfg))
                  (defaultJpegQuality cfg) best) as Hq.
    unfold trace in Hq.
    destruct (quality_loop w cfg _ sliceBuffer _ _ best) as [[qb|e|] tl];
      cbn [fst snd] in *; [|exact Hq|exact Hq].
    rewrite bind_ok. unfold ret. cbn [fst snd]. rewrite app_nil_r. exact Hq.
Qed.

Lemma uploadImageToKlaviyo_trace (apiKey name base64Image mimeType : string) :
  trace (uploadImageToKlaviyo w apiKey name base64Image mimeType) = [EvUpload name].
Proof.
  unfold uploadImageToKlaviyo, call.
  destruct (fetch_images w apiKey name base64Image mimeType) as [e|r]; [reflexivity|].
  rewrite bind_ok. unfold trace. cbn [fst snd].
  destruct (negb (resp_ok r)); [reflexivity|].
  destruct (image_url r) as [[|c u]|]; reflexivity.
Qed.

Lemma process_slice_upload (a : BuildArgs) (src : Buffer) (sw sh : Z) (i : nat)
    (s : Rect) (r : SliceResult) (t : list Event) :
  process_slice w cfg a src sw sh i s = (Ok r, t) ->
  upload_names t = [slice_name (batchName a) (i + 1)].
Proof.
  unfold process_slice. intro H.
  apply bind_ok_inv in H. destruct H as (ex & t1 & t2 & He & H & ->).
  apply bind_ok_inv in H. destruct H as (c & t3 & t4 & Hc & H & ->).
  apply bind_ok_inv in H. destruct H as (u & t5 & t6 & Hu & H & ->).
  apply ret_ok_inv in H. destruct H as [_ ->].
  rewrite !upload_names_app.
  assert (H1 : upload_names t1 = []).
  { unfold call in He. destruct (sharp_extract w src _); injection He as _ <-; reflexivity. }
  pose proof (compressSlice_no_upload (fst ex) (snd ex)) as H3.
  rewrite Hc in H3. unfold trace in H3. cbn [snd] in H3.
  pose proof (uploadImageToKlaviyo_trace (apiKey a)
                (slice_name (batchName a) (i + 1))
                (Buffer_toString_base64 w (buf c)) (mime c)) as H5.
  unfold slice_name in H5. rewrite Hu in H5. unfold trace in H5. cbn [snd] in H5.
  rewrite H1, H3, H5. reflexivity.
Qed.

Lemma process_slices_uploads (a : BuildArgs) (src : Buffer) (sw sh : Z)
    (l : list Rect) :
  forall (i : nat) (done : list SliceResult) (t : list Event),
    process_slices w cfg a src sw sh i l = (Ok done, t) ->
    upload_names t = map (slice_name (batchName a)) (seq (i + 1) (List.length l)).
Proof.
  induction l as [|s l IH]; intros i done t H.
  - apply ret_ok_inv in H. destruct H as [_ ->]. reflexivity.
  - cbn [process_slices] in H.
    apply bind_ok_inv in H. destruct H as (r & t1 & t2 & Hr & H & ->).
    apply bind_ok_inv in H. destruct H as (rs & t3 & t4 & Hrs & H & ->).
    apply ret_ok_inv in H. destruct H as [_ ->].
    rewrite !upload_names_app, (process_slice_upload _ _ _ _ _ _ _ _ Hr),
      (IH _ _ _ Hrs).
    cbn [List.length seq map app upload_names]. rewrite app_nil_r.
    replace (S i + 1)%nat with (S (i + 1)) by lia. reflexivity.
Qed.

Lemma buildAndUploadSlices_ok (a : BuildArgs) (built : Built) (t : list Event) :
  buildAndUploadSlices w cfg a = (Ok built, t) ->
  exists chosen tp,
    choose_slices a (bodyTop_of a) (bodyBottom_of a) = (Ok chosen, [])
    /\ process_slices w cfg a (Buffer_from_base64 w (sourceBase64 a))
         (dim (fst (match sharp_metadata w (Buffer_from_base64 w (sourceBase64 a)) with
                    | inr m => m
                    | inl _ => (None, None)
                    end)))
         (dim (snd (match sharp_metadata w (Buffer_from_base64 w (sourceBase64 a)) with
                    | inr m => m
                    | inl _ => (None, None)
                    end)))
         0 chosen = (Ok (slices built), tp)
    /\ t = EvMetadata :: tp
    /\ (bodyTop_of a < bodyBottom_of a)%Z
    /\ bodyTop built = bodyTop_of a /\ bodyBottom built = bodyBottom_of a.
Proof.
  unfold buildAndUploadSlices. intro H.
  destruct (sharp_metadata w (Buffer_from_base64 w (sourceBase64 a))) as [e|meta];
    [discriminate H|].
  unfold call in H. rewrite bind_ok in H. cbn [fst snd] in H.
  destruct ((dim (fst meta) =? 0)%Z || (dim (snd meta) =? 0)%Z)%bool;
    [discriminate H|].
  destruct (bodyBottom_of a <=? bodyTop_of a)%Z eqn:Eb; [discriminate H|].
  apply Z.leb_gt in Eb.
  pose proof (choose_slices_silent a (bodyTop_of a) (bodyBottom_of a)) as Hsilent.
  destruct (choose_slices a (bodyTop_of a) (bodyBottom_of a)) as [[chosen|e|] tc];
    unfold trace in Hsilent; cbn [snd] in Hsilent; subst tc;
    [|discriminate H|discriminate H].
  rewrite bind_ok in H. cbn [fst snd app] in H.
  destruct (process_slices w cfg a _ _ _ 0 chosen) as [[done|e|] tp] eqn:Ep;
    [|discriminate H|discriminate H].
  rewrite bind_ok in H. unfold ret in H. cbn [fst snd] in H.
  injection H as <- <-. exists chosen, tp.
  rewrite app_nil_r. cbn [slices bodyTop bodyBottom]. repeat split; auto.
Qed.

Lemma buildAndUploadSlices_names (a : BuildArgs) (built : Built) (t : list Event) :
  buildAndUploadSlices w cfg a = (Ok built, t) ->
  upload_names t
  = map (slice_name (batchName a)) (seq 1 (List.length (slices built))).
Proof.
  intro H. destruct (buildAndUploadSlices_ok a built t H)
    as (chosen & tp & _ & Hp & -> & _).
  cbn [upload_names].
  rewrite (process_slices_uploads _ _ _ _ _ _ _ _ Hp).
  rewrite <- (process_slices_complete w cfg _ _ _ _ _ _ _ _ Hp), length_map.
  reflexivity.
Qed.

(** X15: in a batch that succeeds the uploads are made in slice order
    under the names [<batchName>-slice-1], [<batchName>-slice-2], ... , one
    per returned slice and no other; the slices returned are the chosen
    rectangles, in order. *)
Theorem buildAndUploadSlices_upload_names (a : BuildArgs) (built : Built)
    (t : list Event) :
  buildAndUploadSlices w cfg a = (Ok built, t) ->
  upload_names t
  = map (slice_name (batchName a)) (seq 1 (List.length (slices built)))
  /\ List.length (upload_names t) = List.length (slices built)
  /\ outcome (choose_slices a (bodyTop_of a) (bodyBottom_of a))
     = Ok (map slice (slices built)).
Proof.
  intro H. pose proof (buildAndUploadSlices_names a built t H) as Hn.
  split; [exact Hn|]. split.
  - rewrite Hn, length_map, length_seq. reflexivity.
  - destruct (buildAndUploadSlices_ok a built t H)
      as (chosen & tp & Hc & Hp & _).
    rewrite Hc, (process_slices_complete w cfg _ _ _ _ _ _ _ _ Hp). reflexivity.
Qed.

(** X16: a request whose credential cannot be resolved is answered 500
    with the resolution error, and a request with a credential but without
    its image or logical size is answered 400; in both cases nothing is
    decoded, encoded or uploaded.  The credential is looked at first. *)
Theorem push_early_answers (env : Env) (req : PushRequest) :
  (forall error,
     resolveApiKey env (req_accountId req) = ResolvedErr error ->
     push w cfg env req = (Ok (JsonError 500 error), []))
  /\ (forall accountId apiKey source,
        resolveApiKey env (req_accountId req) = ResolvedOk accountId apiKey source ->
        missing_fields req = true ->
        push w cfg env req = (Ok (JsonError 400 missing_fields_error), [])).
Proof.
  unfold push. split.
  - intros error ->. reflexivity.
  - intros accountId apiKey source -> ->. reflexivity.
Qed.

(** X17: for a request whose [batchName] and [frameName] are strings or
    absent, the batch name is never empty: it is the [batchName] of the
    request, else its [frameName], else [Figma Export].  The answer for
    missing fields then depends on the image and the logical size only. *)
Theorem batch_name_never_missing (req : PushRequest) :
  safeBatchName_of req <> EmptyString
  /\ (truthy (req_batchName req) = true ->
       safeBatchName_of req = str_or_empty (req_batchName req))
  /\ (truthy (req_batchName req) = false -> truthy (req_frameName req) = true ->
       safeBatchName_of req = str_or_empty (req_frameName req))
  /\ (truthy (req_batchName req) = false -> truthy (req_frameName req) = false ->
       safeBatchName_of req = "Figma Export"%string)
  /\ missing_fields req
     = (negb (truthy (req_imageBase64 req))
        || (dim (req_logicalWidth req) =? 0)
        || (dim (req_logicalHeight req) =? 0))%bool.
Proof.
  unfold missing_fields, safeBatchName_of, or_else.
  destruct (req_batchName req) as [[|c1 b]|]; cbn [truthy str_or_empty nonempty negb orb];
    destruct (req_frameName req) as [[|c2 f]|];
    cbn [truthy str_or_empty nonempty negb orb];
    repeat split; try discriminate; try reflexivity.
Qed.

Lemma number_slices_index (l : list SliceResult) :
  forall i,
    map index (number_slices i l) = seq (i + 1) (List.length l)
    /\ map result (number_slices i l) = l.
Proof.
  induction l as [|s l IH]; intro i; [split; reflexivity|].
  cbn [number_slices map List.length seq index result].
  destruct (IH (S i)) as [H1 H2]. rewrite H1, H2.
  replace (S i + 1)%nat with (S (i + 1)) by lia. split; reflexivity.
Qed.

Lemma choose_slices_nonempty (a : BuildArgs) (bt bb : Z) (chosen : list Rect)
    (t : list Event) :
  bt < bb ->
  choose_slices a bt bb = (Ok chosen, t) -> chosen <> [].
Proof.
  intros Hbody. unfold choose_slices.
  destruct (manualSlices a) as [|s0 l0].
  - destruct (buildAutoVerticalSlices_tiled (logicalWidth a) bt bb (maxSliceHeight a))
      as (rects & Hr & _ & _ & Hne).
    rewrite Hr. unfold ret. intros [= <- _]. exact (Hne Hbody).
  - destruct (normalizeManualRectSlices _ _ _ _ _) as [|r rs]; [discriminate|].
    unfold ret. intros [= <- _]. discriminate.
Qed.

(** X18: for a request whose logical width and height are integers and
    whose header, footer and maximum heights are finite numbers or absent:
    an answer with slices lists at least one slice; [sliceCount] is their
    number, they are numbered 1, 2, ... in order, one upload was made for
    each under the batch name of the request, and [manualMode] tells
    whether the request carried manual entries. *)
Theorem push_success_shape (env : Env) (req : PushRequest) (body : PushBody)
    (t : list Event) :
  push w cfg env req = (Ok (Json200 body), t) ->
  sliceCount body = List.length (body_slices body)
  /\ (1 <= sliceCount body)%nat
  /\ map index (body_slices body) = seq 1 (sliceCount body)
  /\ body_batchName body = safeBatchName_of req
  /\ upload_names t
     = map (slice_name (safeBatchName_of req)) (seq 1 (sliceCount body))
  /\ (manualMode body = true <-> array_or_empty (req_manualSlices req) <> []).
Proof.
  unfold push. intro H.
  destruct (resolveApiKey env (req_accountId req)) as [id key src|err];
    [|discriminate H].
  destruct (missing_fields req); [discriminate H|].
  destruct (buildAndUploadSlices w cfg (push_args key (safeBatchName_of req) req))
    as [[built|e|] tb] eqn:Eb; [|discriminate H|discriminate H].
  rewrite bind_ok in H. unfold ret, try_catch in H. cbn [fst snd] in H.
  injection H as <- <-. rewrite app_nil_r.
  cbn [sliceCount body_slices body_batchName manualMode].
  destruct (number_slices_index (slices built) 0) as [Hidx Hres].
  assert (Hlen : List.length (number_slices 0 (slices built))
                 = List.length (slices built)).
  { rewrite <- Hres at 2. rewrite length_map. reflexivity. }
  destruct (buildAndUploadSlices_ok _ _ _ Eb) as (chosen & tp & Hc & Hp & _ & Hbody & _).
  pose proof (choose_slices_nonempty _ _ _ _ _ Hbody Hc) as Hne.
  pose proof (process_slices_complete w cfg _ _ _ _ _ _ _ _ Hp) as Hmap.
  assert (Hpos : (1 <= List.length (slices built))%nat).
  { rewrite <- Hmap in Hne. destruct (slices built) as [|r0 rs0];
      [exfalso; apply Hne; reflexivity | cbn [List.length]; lia]. }
  split; [reflexivity|]. split; [lia|]. split; [rewrite Hlen; exact Hidx|].
  split; [reflexivity|]. split.
  - rewrite Hlen. exact (buildAndUploadSlices_names _ _ _ Eb).
  - destruct (array_or_empty (req_manualSlices req)); split.
    + discriminate.
    + intro Hn. exfalso. apply Hn. reflexivity.
    + intros _. discriminate.
    + reflexivity.
Qed.

(** X27: a batch that fails does not undo what it did: when the slices
    before the failing one went through, their uploads, named in order,
    were made before the error is thrown, and they are followed at most by
    calls of the failing slice itself. *)
Theorem failed_batch_keeps_earlier_uploads
    (a : BuildArgs) (sw sh : Z) (pre : list Rect) (s : Rect) (post : list Rect)
    (done : list SliceResult) (t1 : list Event) (e : string) (t2 : list Event) :
  readable w a sw sh ->
  bodyTop_of a < bodyBottom_of a ->
  choose_slices a (bodyTop_of a) (bodyBottom_of a) = (Ok (pre ++ s :: post), []) ->
  process_slices w cfg a (Buffer_from_base64 w (sourceBase64 a)) sw sh 0 pre
  = (Ok done, t1) ->
  process_slice w cfg a (Buffer_from_base64 w (sourceBase64 a)) sw sh
    (List.length pre) s = (Throw e, t2) ->
  buildAndUploadSlices w cfg a = (Throw e, EvMetadata :: t1 ++ t2)
  /\ upload_names (EvMetadata :: t1 ++ t2)
     = map (slice_name (batchName a)) (seq 1 (List.length pre)) ++ upload_names t2.
Proof.
  intros Hread Hbody Hc Hpre Hs. split.
  - rewrite (buildAndUploadSlices_readable w cfg a sw sh Hread Hbody).
    unfold call. rewrite bind_ok, Hc, bind_ok.
    rewrite (process_slices_abort w cfg a _ sw sh pre 0%nat done t1 s post e t2 Hpre Hs).
    rewrite bind_throw. reflexivity.
  - cbn [upload_names]. rewrite upload_names_app.
    rewrite (process_slices_uploads _ _ _ _ _ _ _ _ Hpre). reflexivity.
Qed.

End Batches.

(** * Further properties of the plugin *)

(** ** Merging and splitting intervals *)

Section MoreIntervals.
Import Js Plugin.

Lemma insert_by_start_In (iv x : Interval) (l : list Interval) :
  In x (insert_by_start iv l) <-> x = iv \/ In x l.
Proof.
  induction l as [|h t IH]; cbn [insert_by_start In].
  - intuition.
  - destruct (start iv <=? start h); cbn [In]; [intuition|].
    rewrite IH. intuition.
Qed.

Lemma sort_by_start_In (x : Interval) (l : list Interval) :
  In x (sort_by_start l) <-> In x l.
Proof.
  induction l as [|h t IH]; cbn [sort_by_start fold_right In]; [tauto|].
  fold (sort_by_start t). rewrite insert_by_start_In, IH. intuition.
Qed.

Lemma contains_trans (a b c : Interval) : contains a b -> contains b c -> contains a c.
Proof. unfold contains. lia. Qed.

Lemma merge_loop_contains (joinGap : Z) (rest : list Interval) :
  forall prev,
    Forall (by_start prev) rest ->
    StronglySorted by_start rest ->
    Forall (fun c => Exists (fun m => contains m c) (merge_loop joinGap prev rest))
      (prev :: rest).
Proof.
  induction rest as [|cur rest IH]; intros prev Hfrom Hsorted; cbn [merge_loop].
  - constructor; [|constructor]. constructor. unfold contains. lia.
  - inversion Hfrom as [|c1 r1 Hpc Hfrom']; subst.
    inversion Hsorted as [|c2 r2 Hsorted' Hcur]; subst.
    unfold by_start in Hpc.
    destruct (start cur <=? end_ prev + joinGap) eqn:E.
    + set (prev' := mkInterval (start prev) (Z.max (end_ prev) (end_ cur))).
      specialize (IH prev' Hfrom' Hsorted').
      inversion IH as [|p0 r0 Hp' Hrest]; subst.
      assert (Hsub : forall c, contains prev' c ->
                Exists (fun m => contains m c) (merge_loop joinGap prev' rest)).
      { intros c Hc. apply Exists_exists in Hp'. destruct Hp' as (m & Hin & Hm).
        apply Exists_exists. exists m. split; [exact Hin|].
        exact (contains_trans _ _ _ Hm Hc). }
      constructor; [|constructor; [|exact Hrest]].
      * apply Hsub. unfold contains, prev'. cbn [start end_]. lia.
      * apply Hsub. unfold contains, prev'. cbn [start end_]. lia.
    + specialize (IH cur Hcur Hsorted').
      constructor.
      * constructor. unfold contains. lia.
      * eapply Forall_impl; [|exact IH]. intros c Hc. apply Exists_cons_tl. exact Hc.
Qed.

(** X19: merging loses nothing and keeps its distance: every interval
    given is contained in one of the merged intervals, and two merged
    intervals that follow each other are more than the join gap apart.
    No interval in, no interval out. *)
Theorem mergeIntervals_covers_inputs (intervals : list Interval) (joinGap : Z) :
  Forall (fun c => Exists (fun m => contains m c) (mergeIntervals intervals joinGap))
    intervals
  /\ apart joinGap (mergeIntervals intervals joinGap)
  /\ mergeIntervals [] joinGap = [].
Proof.
  split; [|split; [|reflexivity]].
  - unfold mergeIntervals.
    pose proof (sort_by_start_sorted intervals) as Hsorted.
    pose proof (fun x => sort_by_start_In x intervals) as Hin.
    destruct (sort_by_start intervals) as [|first rest].
    + apply Forall_forall. intros c Hc. apply Hin in Hc. destruct Hc.
    + inversion Hsorted as [|f1 r1 Hsorted' Hfirst]; subst.
      pose proof (merge_loop_contains joinGap rest first Hfirst Hsorted') as Hall.
      apply Forall_forall. intros c Hc. apply Hin in Hc.
      rewrite Forall_forall in Hall. exact (Hall c Hc).
  - unfold mergeIntervals. destruct (sort_by_start intervals) as [|first rest].
    + constructor.
    + apply merge_loop_apart.
Qed.

Lemma split_loop_never_exits (stop maxH : Z) :
  maxH <= 0 ->
  forall (fuel : nat) (top : Z), top < stop -> split_loop fuel stop maxH top = None.
Proof.
  intros Hmax. induction fuel as [|fuel IH]; intros top Hlt; cbn [split_loop];
    destruct (top <? stop) eqn:E; try reflexivity;
    try (apply Z.ltb_ge in E; lia).
  rewrite IH by lia. reflexivity.
Qed.

(** X20: with a maximum height that is not positive the split of an
    interval that is not empty never leaves its loop: no amount of fuel
    reaches the exit.  An empty interval gives no chunk whatever the
    maximum. *)
Theorem splitByMaxHeight_needs_positive_height (interval : Interval) (maxH : Z) :
  (maxH <= 0 -> start interval < end_ interval ->
   splitByMaxHeight interval maxH = None
   /\ forall fuel, split_loop fuel (end_ interval) maxH (start interval) = None)
  /\ (end_ interval <= start interval -> splitByMaxHeight interval maxH = Some []).
Proof.
  split.
  - intros Hmax Hne. split.
    + unfold splitByMaxHeight. apply split_loop_never_exits; assumption.
    + intro fuel. apply split_loop_never_exits; assumption.
  - intro Hempty. unfold splitByMaxHeight.
    replace (Z.to_nat (end_ interval - start interval)) with 0%nat by lia.
    cbn [split_loop].
    destruct (start interval <? end_ interval) eqn:E; [|reflexivity].
    apply Z.ltb_lt in E. lia.
Qed.

End MoreIntervals.

(** ** Suggestions as input of the backend *)

Section SuggestionsToBackend.
Import Js Plugin.

Lemma chunk_slices_shape (frameWidth : Z) (chunks : list Interval) :
  Forall (suggested_shape frameWidth) (chunk_slices frameWidth chunks).
Proof.
  induction chunks as [|c chunks IH]; cbn [chunk_slices]; [constructor|].
  destruct (end_ c - start c <? 8); [exact IH|].
  constructor; [|exact IH]. unfold suggested_shape. cbn. auto.
Qed.

Lemma merged_slices_shape (frameWidth maxH : Z) (merged : list Interval) :
  forall slices,
    merged_slices frameWidth maxH merged = Some slices ->
    Forall (suggested_shape frameWidth) slices.
Proof.
  induction merged as [|m merged IH]; intros slices H; cbn [merged_slices] in H.
  - injection H as <-. constructor.
  - destruct (splitByMaxHeight m maxH) as [chunks|]; [|discriminate].
    destruct (merged_slices frameWidth maxH merged) as [rest|]; [|discriminate].
    cbn [option_map] in H. injection H as <-.
    apply Forall_app. split; [apply chunk_slices_shape | apply IH; reflexivity].
Qed.

Lemma fallback_loop_shape (frameWidth bodyBottom maxH : Z) :
  forall (fuel : nat) (top : Z) slices,
    fallback_loop fuel frameWidth bodyBottom maxH top = Some slices ->
    Forall (suggested_shape frameWidth) slices.
Proof.
  induction fuel as [|fuel IH]; intros top slices H; cbn [fallback_loop] in H;
    destruct (top <? bodyBottom); try discriminate;
    try (injection H as <-; constructor).
  destruct (fallback_loop fuel frameWidth bodyBottom maxH _) as [rest|] eqn:E;
    [|discriminate].
  cbn [option_map] in H. injection H as <-.
  constructor; [unfold suggested_shape; cbn; auto | exact (IH _ _ E)].
Qed.

Lemma suggestSlices_shape (frameNode : FrameNode) (opts : Opts) (slices : list Slice) :
  suggestSlices frameNode opts = Some slices ->
  Forall (suggested_shape (Math_round (node_width frameNode))) slices.
Proof.
  unfold suggestSlices.
  destruct (getBounds (frame_bounds frameNode)) as [frameBounds|];
    [|intros [= <-]; constructor].
  match goal with |- (if ?c then _ else _) = _ -> _ => destruct c end;
    [intros [= <-]; constructor|].
  match goal with
  | |- match merged_slices ?fw ?mh ?m with _ => _ end = _ -> _ =>
      destruct (merged_slices fw mh m) as [[|s0 l0]|] eqn:E
  end.
  - apply fallback_loop_shape.
  - intros [= <-]. exact (merged_slices_shape _ _ _ _ E).
  - discriminate.
Qed.

(** X21: what the plugin suggests, the backend accepts: on a frame at
    least 2 pixels wide, every suggested slice at least 2 pixels high
    goes through the manual normalizer of the backend (same width, same
    body region) unchanged, as a rectangle of its own geometry with empty
    link, label and alternative text.  Every suggestion starts at the left
    edge and spans the frame width. *)
Theorem suggestions_pass_normalizer
    (frameNode : FrameNode) (opts : Opts) (logicalHeight : Z) (slices : list Slice) :
  frame_bounds frameNode <> None ->
  bodyTop_of frameNode opts < bodyBottom_of frameNode opts ->
  2 <= Math_round (node_width frameNode) ->
  suggestSlices frameNode opts = Some slices ->
  Forall (suggested_shape (Math_round (node_width frameNode))) slices
  /\ Forall (fun s =>
               2 <= height (rect s) ->
               Server.normalizeManualRect (Math_round (node_width frameNode))
                 logicalHeight (bodyTop_of frameNode opts) (bodyBottom_of frameNode opts)
                 (as_manual (to_server_rect s))
               = Some (to_server_rect s))
       slices.
Proof.
  intros Hb Hbody Hw Hs.
  pose proof (suggestSlices_shape _ _ _ Hs) as Hshape.
  split; [exact Hshape|].
  destruct (suggestSlices_stacked frameNode opts Hb Hbody) as (slices' & Hs' & _ & Hst & _).
  rewrite Hs in Hs'. injection Hs' as <-.
  pose proof (stacked_Forall _ _ _ Hst) as Hin.
  rewrite Forall_forall in *. intros s Hs_in Hh.
  destruct (Hshape s Hs_in) as (Hx & Hwd & Hu & Ha & Hl).
  specialize (Hin (plugin_span s) (in_map plugin_span _ _ Hs_in)).
  unfold plugin_span in Hin. cbn [fst snd] in Hin.
  rewrite (normalizeManualRect_in_bounds (Math_round (node_width frameNode))
             logicalHeight _ _ (to_server_rect s)).
  - unfold to_server_rect. cbn [Server.x Server.y Server.width Server.height
                                Server.url Server.label Server.alt].
    rewrite Hu. reflexivity.
  - unfold in_bounds, to_server_rect. cbn [Server.x Server.y Server.width Server.height].
    lia.
Qed.

End SuggestionsToBackend.

(** ** Frame selection and the lock *)

Section FrameLock.
Import Js Plugin.

Lemma getSelectedFrame_cases (figma : Figma) :
  (exists node,
     getSelectedFrame figma = (Some node, None)
     /\ selection figma = [node] /\ isValidFrameNode (Some node) = true)
  \/ (exists error, getSelectedFrame figma = (None, Some error)).
Proof.
  unfold getSelectedFrame.
  destruct (selection figma) as [|node [|node' rest]].
  - right. eexists. reflexivity.
  - destruct (isValidFrameNode (Some node)) eqn:E; cbn [negb].
    + left. exists node. auto.
    + right. eexists. reflexivity.
  - right. eexists. reflexivity.
Qed.

Lemma valid_node_payload (node : Node) :
  isValidFrameNode (Some node) = true -> exists p, framePayload node = Some p.
Proof.
  unfold isValidFrameNode, framePayload.
  destruct (negb (existsb (String.eqb (type node)) validTypes)); [discriminate|].
  destruct (getBounds (frame_bounds (frame node))); [|discriminate].
  intros _. eexists. reflexivity.
Qed.

(** What [resolveActiveFrame] returns: a node that is valid or none, and
    a lock that is the old one or cleared and that, when set, names the
    node returned. *)
Lemma resolveActiveFrame_spec (figma : Figma) (lockedFrameId : option string) :
  let r := resolveActiveFrame figma lockedFrameId in
  (fst r = None \/ isValidFrameNode (fst r) = true)
  /\ (snd r = lockedFrameId \/ snd r = None)
  /\ (truthy (snd r) = true ->
       snd r = lockedFrameId
       /\ fst r = getNodeById figma (str_or_empty lockedFrameId)
       /\ isValidFrameNode (fst r) = true)
  /\ (fst r = None -> exists error, getSelectedFrame figma = (None, Some error)).
Proof.
  unfold resolveActiveFrame.
  assert (Hsel : (fst (getSelectedFrame figma) = None
                  \/ isValidFrameNode (fst (getSelectedFrame figma)) = true)
                 /\ (fst (getSelectedFrame figma) = None ->
                      exists error, getSelectedFrame figma = (None, Some error))).
  { destruct (getSelectedFrame_cases figma) as [(node & -> & _ & Hv) | (error & ->)];
      cbn [fst].
    - split; [right; exact Hv | discriminate].
    - split; [left; reflexivity | intros _; exists error; reflexivity]. }
  destruct Hsel as [Hsel Herr].
  destruct (truthy lockedFrameId) eqn:Et.
  - destruct (isValidFrameNode (getNodeById figma (str_or_empty lockedFrameId))) eqn:Ev;
      cbn [fst snd].
    + split; [right; exact Ev|]. split; [left; reflexivity|].
      split; [intros _; auto|].
      intro Hn. rewrite Hn in Ev. discriminate Ev.
    + split; [exact Hsel|]. split; [right; reflexivity|].
      split; [discriminate | exact Herr].
  - cbn [fst snd]. split; [exact Hsel|]. split; [left; reflexivity|].
    split; [congruence | exact Herr].
Qed.

(** X22: every refresh and every change of selection posts exactly one
    update.  It carries either a frame or an error, never both and never
    neither; it says locked only with a frame, and then the lock is set;
    and the lock is afterwards the old one or cleared. *)
Theorem sendSelection_posts_one_update (figma : Figma) (lockedFrameId : option string) :
  exists frame error locked,
    snd (sendSelection figma lockedFrameId) = [Post (Update frame error locked)]
    /\ onmessage figma lockedFrameId Refresh = Some (sendSelection figma lockedFrameId)
    /\ on_selectionchange figma lockedFrameId = sendSelection figma lockedFrameId
    /\ (frame = None <-> error <> None)
    /\ (locked = true ->
         frame <> None /\ truthy (fst (sendSelection figma lockedFrameId)) = true)
    /\ (fst (sendSelection figma lockedFrameId) = lockedFrameId
         \/ fst (sendSelection figma lockedFrameId) = None).
Proof.
  unfold sendSelection, on_selectionchange. cbn [onmessage]. unfold sendSelection.
  destruct (resolveActiveFrame_spec figma lockedFrameId) as (Hv & Hl & _ & Herr).
  destruct (resolveActiveFrame figma lockedFrameId) as [node locked'].
  cbn [fst snd] in *.
  destruct node as [node|].
  - destruct Hv as [Hv|Hv]; [discriminate|].
    destruct (valid_node_payload node Hv) as (p & ->). cbn [fst snd].
    exists (Some p), None, (truthy locked').
    split; [reflexivity|]. split; [reflexivity|]. split; [reflexivity|].
    split; [split; [discriminate | intro H; exfalso; apply H; reflexivity]|].
    split; [intro Ht; split; [discriminate | exact Ht] | exact Hl].
  - destruct (Herr eq_refl) as (error & He). rewrite He. cbn [fst snd].
    exists None, (Some error), false.
    split; [reflexivity|]. split; [reflexivity|]. split; [reflexivity|].
    split; [split; [discriminate | reflexivity]|].
    split; [discriminate | exact Hl].
Qed.

Lemma resolveActiveFrame_lock (figma : Figma) (lockedFrameId : option string) :
  lock_holds figma (snd (resolveActiveFrame figma lockedFrameId)).
Proof.
  destruct (resolveActiveFrame_spec figma lockedFrameId) as (_ & _ & Ht & _).
  unfold lock_holds. intro H. destruct (Ht H) as (-> & <- & Hv). exact Hv.
Qed.

Lemma sendSelection_lock (figma : Figma) (lockedFrameId : option string) :
  fst (sendSelection figma lockedFrameId)
  = snd (resolveActiveFrame figma lockedFrameId).
Proof.
  unfold sendSelection.
  destruct (resolveActiveFrame figma lockedFrameId) as [[node|] locked']; cbn [fst snd].
  - destruct (framePayload node); reflexivity.
  - reflexivity.
Qed.

(** X23: after [refresh], [unlock-frame], [preview], [auto-suggest] and
    [export] a lock that is set names a valid frame, and it is the lock of
    before: a stale lock is cleared, none is set.  After a [lock-frame]
    that finds one valid frame selected, the lock is the id of that frame,
    naming a valid frame, or is cleared.  A [lock-frame] that is refused,
    a notification and an unknown message leave the lock as it is, stale
    or not. *)
Theorem onmessage_keeps_lock_valid (figma : Figma) (lockedFrameId : option string)
    (msg : PluginMessage) (locked' : option string) (effects : list Effect) :
  onmessage figma lockedFrameId msg = Some (locked', effects) ->
  match msg with
  | NotifyUser _ | Unknown => locked' = lockedFrameId
  | LockFrame =>
      match fst (getSelectedFrame figma) with
      | Some selected =>
          lock_holds figma locked' /\ (locked' = Some (id selected) \/ locked' = None)
      | None => locked' = lockedFrameId
      end
  | _ => lock_holds figma locked' /\ (locked' = lockedFrameId \/ locked' = None)
  end.
Proof.
  destruct msg; cbn [onmessage]; intro H.
  - pose proof (sendSelection_lock figma lockedFrameId) as Hs.
    destruct (sendSelection figma lockedFrameId) as [l p]. cbn [fst] in Hs.
    injection H as <- _. rewrite Hs.
    split; [apply resolveActiveFrame_lock|].
    destruct (resolveActiveFrame_spec figma lockedFrameId) as (_ & Hl & _). exact Hl.
  - destruct (fst (getSelectedFrame figma)) as [sel|].
    + pose proof (sendSelection_lock figma (Some (id sel))) as Hs.
      destruct (sendSelection figma (Some (id sel))) as [l p]. cbn [fst] in Hs.
      injection H as <- _. rewrite Hs.
      split; [apply resolveActiveFrame_lock|].
      destruct (resolveActiveFrame_spec figma (Some (id sel))) as (_ & Hl & _). exact Hl.
    + injection H as <- _. reflexivity.
  - pose proof (sendSelection_lock figma None) as Hs.
    destruct (sendSelection figma None) as [l p]. cbn [fst] in Hs.
    injection H as <- _. rewrite Hs.
    split; [apply resolveActiveFrame_lock|].
    destruct (resolveActiveFrame_spec figma None) as (_ & Hl & _).
    right. destruct Hl as [Hl|Hl]; exact Hl.
  - pose proof (resolveActiveFrame_lock figma lockedFrameId) as Hk.
    destruct (resolveActiveFrame_spec figma lockedFrameId) as (_ & Hl & _).
    destruct (resolveActiveFrame figma lockedFrameId) as [[node|] l]; cbn [snd] in *.
    + destruct (exportAsync figma node 1); injection H as <- _; auto.
    + injection H as <- _. auto.
  - pose proof (resolveActiveFrame_lock figma lockedFrameId) as Hk.
    destruct (resolveActiveFrame_spec figma lockedFrameId) as (_ & Hl & _).
    destruct (resolveActiveFrame figma lockedFrameId) as [[node|] l]; cbn [snd] in *.
    + destruct (suggestSlices (frame node) opts); [|discriminate].
      injection H as <- _. auto.
    + injection H as <- _. auto.
  - pose proof (resolveActiveFrame_lock figma lockedFrameId) as Hk.
    destruct (resolveActiveFrame_spec figma lockedFrameId) as (_ & Hl & _).
    destruct (resolveActiveFrame figma lockedFrameId) as [[node|] l]; cbn [snd] in *.
    + destruct (exportAsync figma node 2); injection H as <- _; auto.
    + injection H as <- _. auto.
  - injection H as <- _. reflexivity.
  - injection H as <- _. reflexivity.
Qed.

(** X24: locking the one selected valid frame sets the lock to its id
    and reports it; from then on a change of selection, in a document
    that still has the frame, posts the locked frame again and leaves the
    lock in place.  Unlocking always clears the lock. *)
Theorem locked_frame_survives_selection (figma figma' : Figma) (node : Node)
    (lockedFrameId : option string) :
  selection figma = [node] ->
  isValidFrameNode (Some node) = true ->
  id node <> EmptyString ->
  getNodeById figma (id node) = Some node ->
  getNodeById figma' (id node) = Some node ->
  exists payload,
    framePayload node = Some payload
    /\ onmessage figma lockedFrameId LockFrame
       = Some (Some (id node),
               [Post (Update (Some payload) None true);
                Post (LockResult true None (Some true))])
    /\ on_selectionchange figma' (Some (id node))
       = (Some (id node), [Post (Update (Some payload) None true)])
    /\ exists posted,
         onmessage figma' (Some (id node)) UnlockFrame
         = Some (None, posted ++ [Post (LockResult true None (Some false))]).
Proof.
  intros Hsel Hv Hid Hget Hget'.
  destruct (valid_node_payload node Hv) as (p & Hp). exists p.
  assert (Ht : truthy (Some (id node)) = true).
  { destruct (id node); [congruence | reflexivity]. }
  assert (Hsend : forall f, getNodeById f (id node) = Some node ->
            sendSelection f (Some (id node))
            = (Some (id node), [Post (Update (Some p) None true)])).
  { intros f Hf. unfold sendSelection, resolveActiveFrame.
    rewrite Ht. cbn [str_or_empty]. rewrite Hf, Hv, Hp, Ht. reflexivity. }
  split; [exact Hp|]. split; [|split].
  - cbn [onmessage]. unfold getSelectedFrame. rewrite Hsel, Hv. cbn [negb fst].
    rewrite (Hsend figma Hget). reflexivity.
  - unfold on_selectionchange. apply Hsend. exact Hget'.
  - cbn [onmessage].
    pose proof (sendSelection_lock figma' None) as Hs.
    destruct (resolveActiveFrame_spec figma' None) as (_ & Hl & _).
    destruct (sendSelection figma' None) as [l posted]. cbn [fst] in Hs.
    exists posted. rewrite Hs. destruct Hl as [->| ->]; reflexivity.
Qed.

(** X25: an auto-suggest is always answered, with one message: an error
    when no frame is active, else the suggestions with their number; and
    the number is at least 1 when the body of the active frame is not
    empty. *)
Theorem onmessage_auto_suggest (figma : Figma) (lockedFrameId : option string)
    (opts : Opts) :
  exists locked' message,
    onmessage figma lockedFrameId (AutoSuggest opts) = Some (locked', [Post message])
    /\ match fst (resolveActiveFrame figma lockedFrameId) with
       | None => message = SuggestError "No frame selected"
       | Some active =>
           exists slices,
             suggestSlices (frame active) opts = Some slices
             /\ message = SuggestDone slices (List.length slices)
             /\ (bodyTop_of (frame active) opts < bodyBottom_of (frame active) opts ->
                  slices <> [])
       end.
Proof.
  cbn [onmessage].
  destruct (resolveActiveFrame_spec figma lockedFrameId) as (Hv & _).
  destruct (resolveActiveFrame figma lockedFrameId) as [[active|] l]; cbn [fst] in *.
  - destruct Hv as [Hv|Hv]; [discriminate|].
    assert (Hb : frame_bounds (frame active) <> None).
    { unfold isValidFrameNode, getBounds in Hv.
      destruct (negb _); [discriminate|].
      destruct (frame_bounds (frame active)); [discriminate | discriminate Hv]. }
    destruct (Z_lt_le_dec (bodyTop_of (frame active) opts)
                (bodyBottom_of (frame active) opts)) as [Hlt|Hge].
    + destruct (suggestSlices_stacked (frame active) opts Hb Hlt)
        as (slices & Hs & Hne & _).
      rewrite Hs. eexists. eexists. split; [reflexivity|].
      exists slices. auto.
    + rewrite (suggestSlices_degenerate (frame active) opts (or_intror Hge)).
      eexists. eexists. split; [reflexivity|].
      exists []. split; [reflexivity|]. split; [reflexivity|]. lia.
  - eexists. eexists. split; reflexivity.
Qed.

Lemma Math_round_double (q : Q) :
  2 * Math_round q - 1 <= Math_round (q * 2) <= 2 * Math_round q + 1.
Proof.
  unfold Math_round.
  pose proof (Qfloor_le (q + (1 # 2))) as H1.
  pose proof (Qlt_floor (q + (1 # 2))) as H2.
  pose proof (Qfloor_le (q * 2 + (1 # 2))) as H3.
  pose proof (Qlt_floor (q * 2 + (1 # 2))) as H4.
  set (f := Qfloor (q + (1 # 2))) in *. set (g := Qfloor (q * 2 + (1 # 2))) in *.
  rewrite inject_Z_plus in H2, H4.
  change (inject_Z 1) with 1%Q in H2, H4.
  assert (Hlo : (inject_Z (2 * f - 1) < inject_Z (g + 1))%Q).
  { replace (2 * f - 1) with (2 * f + -1) by lia.
    rewrite !inject_Z_plus, inject_Z_mult.
    change (inject_Z 1) with 1%Q. change (inject_Z 2) with 2%Q.
    change (inject_Z (-1)) with (-1 # 1)%Q. lra. }
  assert (Hhi : (inject_Z g < inject_Z (2 * f + 2))%Q).
  { rewrite inject_Z_plus, inject_Z_mult.
    change (inject_Z 2) with 2%Q. lra. }
  rewrite <- Zlt_Qlt in Hlo, Hhi. lia.
Qed.

(** X26: a frame is exported at scale 2.  The message that carries the
    export gives the rounded logical size, the pixel ratio 2 and an
    export size that is the doubled logical size up to one pixel of
    rounding; the manual entries are those of the request. *)
Theorem onmessage_export_scale (figma : Figma) (lockedFrameId : option string)
    (manual : option (list (option Server.ManualSlice)))
    (locked' : option string) (base64 : string)
    (logicalWidth logicalHeight pixelRatio exportWidth exportHeight : Z)
    (name : string) (manualSlices : list (option Server.ManualSlice)) :
  onmessage figma lockedFrameId (Export manual)
  = Some (locked',
          [Post (ExportDone base64 logicalWidth logicalHeight pixelRatio
                   exportWidth exportHeight name manualSlices)]) ->
  pixelRatio = 2
  /\ 2 * logicalWidth - 1 <= exportWidth <= 2 * logicalWidth + 1
  /\ 2 * logicalHeight - 1 <= exportHeight <= 2 * logicalHeight + 1
  /\ manualSlices = match manual with Some l => l | None => [] end
  /\ exists node,
       fst (resolveActiveFrame figma lockedFrameId) = Some node
       /\ isValidFrameNode (Some node) = true
       /\ logicalWidth = Math_round (node_width (frame node))
       /\ logicalHeight = Math_round (node_height (frame node))
       /\ exists bytes,
            exportAsync figma node 2 = inr bytes
            /\ base64 = base64Encode figma bytes.
Proof.
  cbn [onmessage]. intro H.
  destruct (resolveActiveFrame_spec figma lockedFrameId) as (Hv & _).
  destruct (resolveActiveFrame figma lockedFrameId) as [[node|] l]; cbn [fst] in *;
    [|discriminate H].
  destruct Hv as [Hv|Hv]; [discriminate|].
  destruct (exportAsync figma node 2) as [err|bytes] eqn:Ee; [discriminate H|].
  injection H as <- <- <- <- <- <- <- <- <-.
  split; [reflexivity|].
  split; [apply (Math_round_double (node_width (frame node)))|].
  split; [apply (Math_round_double (node_height (frame node)))|].
  split; [reflexivity|].
  exists node. repeat split; auto. exists bytes. auto.
Qed.

End FrameLock.

(** * Instances of the further properties *)

Section FurtherInstances.
Import Js.
Local Open Scope string_scope.

(** One byte encodes within the target at the default quality, 80. *)
Lemma compressSlice_quality_range_witness :
  exists q : Z,
    Server.quality (Server.mkCompressed [x00] "image/jpeg" (Some 80)
                      (Server.bytesToKb 1) (Server.bytesToKb 1)) = Some q
    /\ 60 <= q.
Proof.
  destruct (compressSlice_quality_range every_call_succeeds default_config [x00]
              (Server.mkCompressed [x00] "image/jpeg" (Some 80)
                 (Server.bytesToKb 1) (Server.bytesToKb 1)) eq_refl)
    as (q & n & Hq & _ & _ & Hfloor & _).
  exists q. split; [exact Hq|]. apply Hfloor.
  - vm_compute. discriminate.
  - reflexivity.
Defined.

(** A frame 1 pixel wide: the entry asking for all of it is refused. *)
Lemma manual_slices_need_two_pixels_witness :
  Server.buildAndUploadSlices every_call_succeeds default_config
    (Server.mkBuildArgs "pk_live_1" "Newsletter" "aGVsbG8=" 1 1000 2 0 0 1200
       [sliver_entry])
  = (Throw Server.no_valid_manual_error, [EvMetadata]).
Proof.
  apply (manual_slices_need_two_pixels every_call_succeeds default_config
           (Server.mkBuildArgs "pk_live_1" "Newsletter" "aGVsbG8=" 1 1000 2 0 0 1200
              [sliver_entry]) 1200 4000).
  - unfold readable. split; [reflexivity|]. split; discriminate.
  - vm_compute. reflexivity.
  - left. simpl. lia.
  - simpl. discriminate.
Defined.

(** The newsletter batch: two slices, two uploads, named in order. *)
Lemma buildAndUploadSlices_upload_names_witness :
  exists built t,
    Server.buildAndUploadSlices every_call_succeeds default_config newsletter_args
    = (Ok built, t)
    /\ upload_names t
       = map (slice_name (Server.batchName newsletter_args))
           (seq 1 (List.length (Server.slices built))).
Proof.
  eexists. eexists. split.
  - vm_compute. reflexivity.
  - refine (proj1 (buildAndUploadSlices_upload_names every_call_succeeds default_config
                     newsletter_args _ _ _)).
    vm_compute. reflexivity.
Defined.

(** The answer to the newsletter request lists at least one slice. *)
Lemma push_success_shape_witness :
  exists body t,
    Server.push every_call_succeeds default_config env_acme newsletter_request
    = (Ok (Server.Json200 body), t)
    /\ (1 <= Server.sliceCount body)%nat.
Proof.
  eexists. eexists. split.
  - vm_compute. reflexivity.
  - refine (proj1 (proj2 (push_success_shape every_call_succeeds default_config
                            env_acme newsletter_request _ _ _))).
    vm_compute. reflexivity.
Defined.

(** The first suggestion for the childless frame with header and footer
    of 100 goes through the normalizer of the backend. *)
Lemma suggestions_pass_normalizer_witness :
  Server.normalizeManualRect 1000 2000 100 1900
    (as_manual (to_server_rect (Plugin.full_width_slice 1000 100 1200)))
  = Some (to_server_rect (Plugin.full_width_slice 1000 100 1200)).
Proof.
  refine (Forall_inv
            (proj2 (suggestions_pass_normalizer childless_frame
                      (Plugin.mkOpts (Some 100%Q) (Some 100%Q) (Some 1200%Q)) 2000
                      [Plugin.full_width_slice 1000 100 1200;
                       Plugin.full_width_slice 1000 1300 600] _ _ _ _)) _).
  - simpl. discriminate.
  - vm_compute. reflexivity.
  - vm_compute. discriminate.
  - vm_compute. reflexivity.
  - vm_compute. discriminate.
Defined.

(** [Hero] is selected and locked: the lock names a valid frame. *)
Lemma onmessage_keeps_lock_valid_witness :
  Plugin.isValidFrameNode (Plugin.getNodeById hero_selected "12:7") = true
  /\ (Some "12:7" = Some (Plugin.id hero_node) \/ Some "12:7" = None).
Proof.
  destruct (onmessage_keeps_lock_valid hero_selected (Some "99:1") Plugin.LockFrame
              (Some "12:7")
              [Plugin.Post (Plugin.Update (Some (Plugin.mkFramePayload "12:7" "Hero" 600 900))
                              None true);
               Plugin.Post (Plugin.LockResult true None (Some true))]
              eq_refl) as [Hk Hl].
  split; [exact (Hk eq_refl) | exact Hl].
Defined.

(** [Hero] is locked, then the text layer is selected: the update still
    shows [Hero], locked. *)
Lemma locked_frame_survives_selection_witness :
  exists payload,
    Plugin.framePayload hero_node = Some payload
    /\ Plugin.on_selectionchange text_selected (Some "12:7")
       = (Some "12:7", [Plugin.Post (Plugin.Update (Some payload) None true)]).
Proof.
  destruct (locked_frame_survives_selection hero_selected text_selected hero_node None)
    as (p & Hp & _ & Hs & _).
  - reflexivity.
  - reflexivity.
  - discriminate.
  - reflexivity.
  - reflexivity.
  - exists p. split; assumption.
Defined.

(** The export of [Hero]: 600 by 900 at scale 2. *)
Lemma onmessage_export_scale_witness :
  2 * 600 - 1 <= 1200 <= 2 * 600 + 1.
Proof.
  refine (proj1 (proj2 (onmessage_export_scale hero_selected None None None
                          "AA==" 600 900 2 1200 1800 "Hero" [] _))).
  vm_compute. reflexivity.
Defined.

(** The upload of the second slice fails; the first image stays
    uploaded. *)
Lemma failed_batch_keeps_earlier_uploads_witness :
  exists t1 t2,
    Server.buildAndUploadSlices second_upload_fails default_config newsletter_args
    = (Throw "socket hang up", EvMetadata :: t1 ++ t2)
    /\ upload_names (EvMetadata :: t1 ++ t2)
       = (map (slice_name (Server.batchName newsletter_args))
            (seq 1 (List.length [Server.mkRect 0 0 600 1200 "" "" ""]))
          ++ upload_names t2)%list.
Proof.
  eexists. eexists.
  eapply (failed_batch_keeps_earlier_uploads second_upload_fails default_config
            newsletter_args 1200 4000
            [Server.mkRect 0 0 600 1200 "" "" ""]
            (Server.mkRect 0 1200 600 800 "" "" "") []).
  - unfold readable. split; [reflexivity|]. split; discriminate.
  - vm_compute. reflexivity.
  - vm_compute. reflexivity.
  - vm_compute. reflexivity.
  - vm_compute. reflexivity.
Defined.

End FurtherInstances.
